(** * ocrbase: job lifecycle, usage ledger and real-time gateway

    A shallow embedding of the server's job store
    ([updateJobStatus], [completeJob], [failJob]), of the usage ledger
    embedded in [completeJob], of [validateApiKey] and of the
    [/ws/jobs/:jobId] gateway handlers, together with the statements the
    specification makes about them.

    Conventions of the embedding.
    - A JavaScript [number] that is stored in a PostgreSQL [integer]
      column is a [Z]; the store rejects a value outside the 32-bit range
      with an error instead of wrapping.
    - A [Date] is the number of milliseconds since the epoch ([Z]).
    - An optional property / nullable column is an [option]; in a
      [.set({...})] object [None] is [undefined], which the query builder
      leaves out of the statement.
    - A table is the list of its rows, in insertion order.
    - A [string] is a JavaScript string, one character per UTF-16 code
      unit, with every code unit below 256: the identifiers of the
      program are ASCII, and the value of an HTTP header is a byte
      string.
    - [await db....] is a statement run in autocommit mode: it either
      takes effect as a whole or throws and leaves the store unchanged;
      [db.transaction] does the same for its whole body.
    - The job store functions run to completion once called (the
      specification assumes one sequential writer per job); the gateway's
      [open] handler is split at its [await]s, because the peer may go
      away while it is suspended. *)

From stdpp Require Import gmap strings list.
From Stdlib Require Import ZArith Ascii Lia.

Open Scope string_scope.
Open Scope list_scope.
Open Scope Z_scope.

(** ** Data model *)

(** [packages/db/src/lib/enums.ts]: [jobStatusEnum]. *)
Inductive JobStatus : Set :=
  | pending | processing | extracting | completed | failed.

#[global] Instance JobStatus_eq_dec : EqDecision JobStatus.
Proof. solve_decision. Defined.

(** The columns of table [jobs] that the job store and the gateway touch
    (migration 0000 and [ALTER TABLE "jobs" ADD COLUMN "api_key_id"]). *)
Record Job : Set := mkJob {
  job_id : string;
  job_organizationId : string;
  job_userId : string;
  job_apiKeyId : option string;
  job_status : JobStatus;
  job_llmModel : option string;
  job_markdownResult : option string;
  job_jsonResult : option string;
  job_pageCount : option Z;
  job_tokenCount : option Z;
  job_errorCode : option string;
  job_errorMessage : option string;
  job_retryCount : Z;
  job_startedAt : option Z;
  job_completedAt : option Z;
  job_processingTimeMs : option Z
}.

(** Table [api_keys]. *)
Record ApiKey : Set := mkApiKey {
  key_id : string;
  key_name : string;
  key_keyHash : string;
  key_organizationId : string;
  key_userId : string;
  key_isActive : bool;
  key_requestCount : Z;
  key_lastUsedAt : option Z
}.

(** Table [usage_events] (migration 0001). *)
Record UsageEvent : Set := mkUsageEvent {
  ue_id : string;
  ue_apiKeyId : string;
  ue_jobId : string;
  ue_pages : Z;
  ue_promptTokens : Z;
  ue_completionTokens : Z;
  ue_model : option string;
  ue_createdAt : Z
}.

(** Table [api_key_usage_daily] (migration 0001); [day] is a [date],
    written by the code as the text [YYYY-MM-DD]. *)
Record DailyUsage : Set := mkDailyUsage {
  du_apiKeyId : string;
  du_day : string;
  du_pages : Z;
  du_jobsCount : Z;
  du_promptTokens : Z;
  du_completionTokens : Z
}.

Record Db : Set := mkDb {
  jobs : list Job;
  apiKeys : list ApiKey;
  usageEvents : list UsageEvent;
  apiKeyUsageDaily : list DailyUsage
}.

(** [LlmUsage] of [services/llm.ts]. *)
Record LlmUsage : Set := mkLlmUsage {
  promptTokens : Z;
  completionTokens : Z
}.

(** [interface CompleteJobResult]. *)
Record CompleteJobResult : Set := mkCompleteJobResult {
  markdownResult : string;
  jsonResult : option string;
  pageCount : Z;
  tokenCount : option Z;
  llmModel : option string;
  llmUsage : option LlmUsage;
  processingTimeMs : Z
}.

(** [Omit<UpdateData, "status">]. *)
Record UpdateData : Set := mkUpdateData {
  ud_markdownResult : option string;
  ud_jsonResult : option string;
  ud_pageCount : option Z;
  ud_tokenCount : option Z;
  ud_errorCode : option string;
  ud_errorMessage : option string;
  ud_retryCount : option Z;
  ud_startedAt : option Z;
  ud_completedAt : option Z;
  ud_processingTimeMs : option Z
}.

(** The object handed to [db.update(jobs).set(...)]. *)
Record JobSet : Set := mkJobSet {
  set_status : option JobStatus;
  set_llmModel : option string;
  set_markdownResult : option string;
  set_jsonResult : option string;
  set_pageCount : option Z;
  set_tokenCount : option Z;
  set_errorCode : option string;
  set_errorMessage : option string;
  set_retryCount : option Z;
  set_startedAt : option Z;
  set_completedAt : option Z;
  set_processingTimeMs : option Z
}.

(** What a call reads from its surroundings: [new Date()], the
    database's [now()] (the default of [usage_events.created_at]) and the
    next output of [nanoid()]. *)
Record Env : Set := mkEnv {
  clock : Z;
  db_now : Z;
  nanoid : string
}.

(** ** Notification messages and the bus *)

Inductive MessageType : Set := type_status | type_completed | type_error.

#[global] Instance MessageType_eq_dec : EqDecision MessageType.
Proof. solve_decision. Defined.

(** The [data] object of a [JobUpdateMessage]; a property the code does
    not write is [None]. *)
Record MessageData : Set := mkMessageData {
  data_status : option JobStatus;
  data_processingTimeMs : option Z;
  data_jsonResult : option string;
  data_markdownResult : option string;
  data_error : option string
}.

Record JobUpdateMessage : Set := mkMessage {
  msg_data : MessageData;
  msg_jobId : string;
  msg_type : MessageType
}.

(** What a handler hands to [ws.send]: the argument of [JSON.stringify]
    (which is injective on these three shapes). *)
Inductive Frame : Set :=
  | FrameError (error : string)          (* {error, type: "error"} *)
  | FramePong                            (* {type: "pong"} *)
  | FrameUpdate (m : JobUpdateMessage).

(** A callback handle.  The only callbacks of the program are the
    closures [(message) => ws.send(JSON.stringify(message))] made by the
    gateway's [open], one per connection: the handle is the connection
    the closure captured. *)
Abbreviation Callback := nat (only parsing).

(** [interface WebSocketData]. *)
Record WebSocketData : Set := mkWebSocketData {
  wsd_callback : Callback;
  wsd_jobId : string;
  wsd_organizationId : string;
  wsd_userId : string
}.

(** Request headers the gateway reads. *)
Record Headers : Set := mkHeaders {
  authorization : option string;
  cookie : option string
}.

(** Where a connection's [open] handler stands: suspended at the
    identity lookups ([await validateApiKey], [await getSession]),
    suspended at [await db.query.jobs.findFirst], or returned. *)
Inductive OpenPhase : Set :=
  | AwaitIdentity (hdrs : Headers) (jobId : string)
  | AwaitJob (jobId userId organizationId : string)
  | Returned.

(** One server-side socket [ws]. *)
Record Conn : Set := mkConn {
  sent : list Frame;                 (* frames handed to ws.send, oldest first *)
  closeCalled : bool;                (* a handler called ws.close() *)
  closed : bool;                     (* the socket is gone: its close handler has run *)
  wsData : option WebSocketData;     (* ws.data.wsData *)
  phase : OpenPhase
}.

Record World : Type := mkWorld {
  db : Db;
  bus : gmap string (gset Callback);
  publishLog : list JobUpdateMessage;    (* arguments of publishJobUpdate, oldest first *)
  conns : gmap nat Conn
}.

Definition with_db (d : Db) (w : World) : World :=
  {| db := d; bus := bus w; publishLog := publishLog w; conns := conns w |}.
Definition with_bus (b : gmap string (gset Callback)) (w : World) : World :=
  {| db := db w; bus := b; publishLog := publishLog w; conns := conns w |}.
Definition with_conns (c : gmap nat Conn) (w : World) : World :=
  {| db := db w; bus := bus w; publishLog := publishLog w; conns := c |}.
Definition with_publishLog (l : list JobUpdateMessage) (w : World) : World :=
  {| db := db w; bus := bus w; publishLog := l; conns := conns w |}.

(** ** Errors, statements and programs *)

Inductive DbError : Set :=
  | IntegerOutOfRange       (* 22003 *)
  | UniqueViolation         (* 23505 *)
  | ForeignKeyViolation.    (* 23503 *)

Inductive Outcome (A : Type) : Type :=
  | Ok (a : A)
  | Thrown (e : DbError).
Arguments Ok {A} a.
Arguments Thrown {A} e.

(** A unit of work against the store: all of it or none of it. *)
Definition Tx (A : Type) : Type := Db -> Outcome (A * Db).

Definition tx_ret {A} (a : A) : Tx A := fun d => Ok (a, d).
Definition tx_bind {A B} (m : Tx A) (k : A -> Tx B) : Tx B :=
  fun d => match m d with
           | Ok (a, d') => k a d'
           | Thrown e => Thrown e
           end.

(** An asynchronous function of the server: what it has committed or
    sent stays when it throws. *)
Definition Prog (A : Type) : Type := World -> Outcome A * World.

Definition ret {A} (a : A) : Prog A := fun w => (Ok a, w).
Definition bind {A B} (m : Prog A) (k : A -> Prog B) : Prog B :=
  fun w => match m w with
           | (Ok a, w') => k a w'
           | (Thrown e, w') => (Thrown e, w')
           end.

Declare Scope prog_scope.
Delimit Scope prog_scope with prog.
Notation "x <- m ;; k" := (bind m (fun x => k))
  (at level 100, m at next level, right associativity) : prog_scope.
Notation "x <~ m ;; k" := (tx_bind m (fun x => k))
  (at level 100, m at next level, right associativity) : prog_scope.

(** [await] of one statement, or of [db.transaction(body)]: commit on
    success, no change and a rejected promise otherwise. *)
Definition commit {A} (t : Tx A) : Prog A :=
  fun w => match t (db w) with
           | Ok (a, d') => (Ok a, with_db d' w)
           | Thrown e => (Thrown e, w)
           end.
Definition transaction {A} (body : Tx A) : Prog A := commit body.

(** ** The store's statements *)

Definition int4_ok (z : Z) : bool := (-2147483648 <=? z) && (z <=? 2147483647).
Definition opt_int4_ok (o : option Z) : bool :=
  match o with Some z => int4_ok z | None => true end.

(** JavaScript truthiness of a [string | null | undefined]. *)
Definition truthy (o : option string) : bool :=
  match o with
  | Some s => negb (bool_decide (s = ""))
  | None => false
  end.

Definition or_keep {A} (new old : option A) : option A :=
  match new with Some a => Some a | None => old end.

Definition applySet (u : JobSet) (j : Job) : Job :=
  {| job_id := job_id j;
     job_organizationId := job_organizationId j;
     job_userId := job_userId j;
     job_apiKeyId := job_apiKeyId j;
     job_status := default (job_status j) (set_status u);
     job_llmModel := or_keep (set_llmModel u) (job_llmModel j);
     job_markdownResult := or_keep (set_markdownResult u) (job_markdownResult j);
     job_jsonResult := or_keep (set_jsonResult u) (job_jsonResult j);
     job_pageCount := or_keep (set_pageCount u) (job_pageCount j);
     job_tokenCount := or_keep (set_tokenCount u) (job_tokenCount j);
     job_errorCode := or_keep (set_errorCode u) (job_errorCode j);
     job_errorMessage := or_keep (set_errorMessage u) (job_errorMessage j);
     job_retryCount := default (job_retryCount j) (set_retryCount u);
     job_startedAt := or_keep (set_startedAt u) (job_startedAt j);
     job_completedAt := or_keep (set_completedAt u) (job_completedAt j);
     job_processingTimeMs := or_keep (set_processingTimeMs u) (job_processingTimeMs j) |}.

(** The [integer] columns among the values of a [.set] object. *)
Definition jobSet_ok (u : JobSet) : bool :=
  opt_int4_ok (set_pageCount u) && opt_int4_ok (set_tokenCount u)
  && opt_int4_ok (set_retryCount u) && opt_int4_ok (set_processingTimeMs u).

Definition with_jobs (rows : list Job) (d : Db) : Db :=
  {| jobs := rows; apiKeys := apiKeys d;
     usageEvents := usageEvents d;
     apiKeyUsageDaily := apiKeyUsageDaily d |}.
Definition with_apiKeys (rows : list ApiKey) (d : Db) : Db :=
  {| jobs := jobs d; apiKeys := rows;
     usageEvents := usageEvents d;
     apiKeyUsageDaily := apiKeyUsageDaily d |}.
Definition with_usageEvents (rows : list UsageEvent) (d : Db) : Db :=
  {| jobs := jobs d; apiKeys := apiKeys d;
     usageEvents := rows;
     apiKeyUsageDaily := apiKeyUsageDaily d |}.
Definition with_daily (rows : list DailyUsage) (d : Db) : Db :=
  {| jobs := jobs d; apiKeys := apiKeys d;
     usageEvents := usageEvents d;
     apiKeyUsageDaily := rows |}.

Definition is_job (jobId : string) (j : Job) : bool := bool_decide (job_id j = jobId).

Definition update_rows (jobId : string) (u : JobSet) (rows : list Job) : list Job :=
  map (fun j => if is_job jobId j then applySet u j else j) rows.

(** [db.update(jobs).set(u).where(eq(jobs.id, jobId)).returning(...)]:
    the rows it changed.  A value that does not fit its [integer] column
    is refused when the statement is bound, whether a row matches or
    not. *)
Definition update_jobs (jobId : string) (u : JobSet) : Tx (list Job) :=
  fun d =>
    if jobSet_ok u then
      let rows := update_rows jobId u (jobs d) in
      Ok (filter (is_job jobId) rows, with_jobs rows d)
    else Thrown IntegerOutOfRange.

(** [db.query.jobs.findFirst({ where })]. *)
Definition findFirst (where_ : Job -> bool) (d : Db) : option Job :=
  find where_ (jobs d).

Definition event_ok (e : UsageEvent) : bool :=
  int4_ok (ue_pages e) && int4_ok (ue_promptTokens e) && int4_ok (ue_completionTokens e).

Definition has_key (apiKeyId : string) (d : Db) : bool :=
  existsb (fun k => bool_decide (key_id k = apiKeyId)) (apiKeys d).

Definition event_of_job (jobId : string) (e : UsageEvent) : bool :=
  bool_decide (ue_jobId e = jobId).

(** [tx.insert(usageEvents).values(e)
       .onConflictDoNothing({ target: usageEvents.jobId })
       .returning({ id })]: the ids of the rows it inserted.  Only a
    conflict on [job_id] is ignored; a taken [id] (the primary key) or an
    [api_key_id] without its key is an error. *)
Definition insert_usageEvent (e : UsageEvent) : Tx (list string) :=
  fun d =>
    if negb (event_ok e) then Thrown IntegerOutOfRange
    else if existsb (event_of_job (ue_jobId e)) (usageEvents d) then Ok ([], d)
    else if existsb (fun e' => bool_decide (ue_id e' = ue_id e)) (usageEvents d)
    then Thrown UniqueViolation
    else if negb (has_key (ue_apiKeyId e) d) then Thrown ForeignKeyViolation
    else Ok ([ue_id e], with_usageEvents (usageEvents d ++ [e]) d).

Definition daily_ok (r : DailyUsage) : bool :=
  int4_ok (du_pages r) && int4_ok (du_jobsCount r)
  && int4_ok (du_promptTokens r) && int4_ok (du_completionTokens r).

Definition is_daily (apiKeyId day : string) (r : DailyUsage) : bool :=
  bool_decide (du_apiKeyId r = apiKeyId) && bool_decide (du_day r = day).

(** The [set] of the [onConflictDoUpdate]: each column plus the value of
    this job, [jobsCount] plus the literal 1. *)
Definition daily_add (v r : DailyUsage) : DailyUsage :=
  {| du_apiKeyId := du_apiKeyId r;
     du_day := du_day r;
     du_pages := du_pages r + du_pages v;
     du_jobsCount := du_jobsCount r + 1;
     du_promptTokens := du_promptTokens r + du_promptTokens v;
     du_completionTokens := du_completionTokens r + du_completionTokens v |}.

Definition has_daily (v : DailyUsage) (rows : list DailyUsage) : bool :=
  existsb (is_daily (du_apiKeyId v) (du_day v)) rows.

Definition daily_bump (v : DailyUsage) (rows : list DailyUsage) : list DailyUsage :=
  map (fun r => if is_daily (du_apiKeyId v) (du_day v) r then daily_add v r else r) rows.

(** The table after the upsert of [v]. *)
Definition daily_rows (v : DailyUsage) (rows : list DailyUsage) : list DailyUsage :=
  if has_daily v rows then daily_bump v rows else rows ++ [v].

(** [tx.insert(apiKeyUsageDaily).values(v)
       .onConflictDoUpdate({ target: [apiKeyId, day], set })].  A sum
    that leaves the range of [integer] is an error. *)
Definition upsert_apiKeyUsageDaily (v : DailyUsage) : Tx unit :=
  fun d =>
    let rows := apiKeyUsageDaily d in
    if negb (daily_ok v) then Thrown IntegerOutOfRange
    else if has_daily v rows then
      if forallb daily_ok (filter (is_daily (du_apiKeyId v) (du_day v)) (daily_bump v rows))
      then Ok (tt, with_daily (daily_bump v rows) d)
      else Thrown IntegerOutOfRange
    else if has_key (du_apiKeyId v) d then Ok (tt, with_daily (rows ++ [v]) d)
    else Thrown ForeignKeyViolation.

(** ** Dates and identifiers *)

(** Days since the epoch to (year, month, day) of the proleptic Gregorian
    calendar, which is what [Date.prototype.toISOString] prints. *)
Definition civil_from_days (days : Z) : Z * Z * Z :=
  let z := days + 719468 in
  let era := z / 146097 in
  let doe := z - era * 146097 in
  let yoe := (doe - doe / 1460 + doe / 36524 - doe / 146096) / 365 in
  let doy := doe - (365 * yoe + yoe / 4 - yoe / 100) in
  let mp := (5 * doy + 2) / 153 in
  let d := doy - (153 * mp + 2) / 5 + 1 in
  let m := if mp <? 10 then mp + 3 else mp - 9 in
  let y := yoe + era * 400 in
  (if m <=? 2 then y + 1 else y, m, d).

Definition digit (n : Z) : string :=
  String (ascii_of_nat (48 + Z.to_nat n)) EmptyString.

Fixpoint digits (width : nat) (n : Z) : string :=
  match width with
  | O => ""
  | S w => digits w (n / 10) +:+ digit (n mod 10)
  end.

Definition isoYear (y : Z) : string :=
  if (0 <=? y) && (y <=? 9999) then digits 4 y
  else if y <? 0 then "-" +:+ digits 6 (- y)
  else "+" +:+ digits 6 y.

(** [date.toISOString().split("T")[0]]: the UTC calendar date of an
    instant. *)
Definition isoDate (ms : Z) : string :=
  let '(y, m, d) := civil_from_days (ms / 86400000) in
  isoYear y +:+ "-" +:+ digits 2 m +:+ "-" +:+ digits 2 d.

(** [packages/db/src/lib/ids.ts]. *)
Inductive IdPrefix : Set :=
  | id_apiKey | id_apiKeyUsage | id_job | id_organization | id_schema
  | id_usageEvent.

Definition ID_PREFIXES (p : IdPrefix) : string :=
  match p with
  | id_apiKey => "ak"
  | id_apiKeyUsage => "aku"
  | id_job => "job"
  | id_organization => "org"
  | id_schema => "sch"
  | id_usageEvent => "ue"
  end.

Definition createId (env : Env) (prefix : IdPrefix) : string :=
  ID_PREFIXES prefix +:+ "_" +:+ nanoid env.

(** ** Notification bus *)

Definition subscribers (jobId : string) (b : gmap string (gset Callback)) : gset Callback :=
  default ∅ (b !! jobId).

(** [ws.send(frame)] on connection [c]. *)
Definition push_frame (f : Frame) (c : Conn) : Conn :=
  {| sent := sent c ++ [f]; closeCalled := closeCalled c; closed := closed c;
     wsData := wsData c; phase := phase c |}.

Definition ws_send (c : nat) (f : Frame) (cs : gmap nat Conn) : gmap nat Conn :=
  alter (push_frame f) c cs.

(** Calling the callback made by connection [cb]'s [open]:
    [ws.send(JSON.stringify(message))]. *)
Definition call_callback (m : JobUpdateMessage) (cb : Callback)
    (cs : gmap nat Conn) : gmap nat Conn :=
  ws_send cb (FrameUpdate m) cs.

(** Modelled from the spec: [services/websocket.ts] ([subscribeToJob],
    [unsubscribeFromJob], [publishJobUpdate]) is not among the sources.
    The bus is a mapping from job identifier to a set of callback
    handles; subscribe adds the callback to the set for the job. *)
Definition subscribeToJob (jobId : string) (cb : Callback) (w : World) : World :=
  with_bus (<[jobId := {[cb]} ∪ subscribers jobId (bus w)]> (bus w)) w.

(** Modelled from the spec: unsubscribe removes the callback; removing a
    non-member is a no-op, never an error. *)
Definition unsubscribeFromJob (jobId : string) (cb : Callback) (w : World) : World :=
  with_bus (alter (fun s => s ∖ {[cb]}) jobId (bus w)) w.

(** Modelled from the spec: publish delivers the message to every
    callback currently subscribed for the job; a failing callback is
    isolated, so publish itself never throws. *)
Definition publishJobUpdate (jobId : string) (m : JobUpdateMessage) : Prog unit :=
  fun w =>
    (Ok tt,
     with_conns
       (foldr (call_callback m) (conns w) (elements (subscribers jobId (bus w))))
       (with_publishLog (publishLog w ++ [m]) w)).

(** ** Job store ([jobs] service) *)

Open Scope prog_scope.

Definition jobSet_of_update (status : JobStatus) (data : option UpdateData) : JobSet :=
  {| set_status := Some status;
     set_llmModel := None;
     set_markdownResult := data ≫= ud_markdownResult;
     set_jsonResult := data ≫= ud_jsonResult;
     set_pageCount := data ≫= ud_pageCount;
     set_tokenCount := data ≫= ud_tokenCount;
     set_errorCode := data ≫= ud_errorCode;
     set_errorMessage := data ≫= ud_errorMessage;
     set_retryCount := data ≫= ud_retryCount;
     set_startedAt := data ≫= ud_startedAt;
     set_completedAt := data ≫= ud_completedAt;
     set_processingTimeMs := data ≫= ud_processingTimeMs |}.

Definition status_message (jobId : string) (status : JobStatus)
    (data : option UpdateData) : JobUpdateMessage :=
  {| msg_data := {| data_status := Some status;
                    data_processingTimeMs := data ≫= ud_processingTimeMs;
                    data_jsonResult := None;
                    data_markdownResult := None;
                    data_error := None |};
     msg_jobId := jobId;
     msg_type := type_status |}.

Definition updateJobStatus (jobId : string) (status : JobStatus)
    (data : option UpdateData) : Prog unit :=
  _ <- commit (update_jobs jobId (jobSet_of_update status data)) ;;
  publishJobUpdate jobId (status_message jobId status data).

Definition jobSet_of_result (completedAt : Z) (result : CompleteJobResult) : JobSet :=
  {| set_status := Some completed;
     set_llmModel := llmModel result;
     set_markdownResult := Some (markdownResult result);
     set_jsonResult := jsonResult result;
     set_pageCount := Some (pageCount result);
     set_tokenCount := tokenCount result;
     set_errorCode := None;
     set_errorMessage := None;
     set_retryCount := None;
     set_startedAt := None;
     set_completedAt := Some completedAt;
     set_processingTimeMs := Some (processingTimeMs result) |}.

Definition completed_message (jobId : string) (result : CompleteJobResult)
    : JobUpdateMessage :=
  {| msg_data := {| data_status := Some completed;
                    data_processingTimeMs := Some (processingTimeMs result);
                    data_jsonResult := jsonResult result;
                    data_markdownResult := Some (markdownResult result);
                    data_error := None |};
     msg_jobId := jobId;
     msg_type := type_completed |}.

(** [result.llmUsage?.promptTokens ?? 0] and its sibling. *)
Definition promptTokens_of (result : CompleteJobResult) : Z :=
  default 0 (promptTokens <$> llmUsage result).
Definition completionTokens_of (result : CompleteJobResult) : Z :=
  default 0 (completionTokens <$> llmUsage result).

(** The row of the [tx.insert(usageEvents).values(...)]; the code leaves
    [id] and [created_at] to their defaults, [createId("usageEvent")] of
    [lib/ids.ts] and the database's [now()]. *)
Definition usage_event (env : Env) (apiKeyId jobId : string)
    (result : CompleteJobResult) : UsageEvent :=
  {| ue_id := createId env id_usageEvent;
     ue_apiKeyId := apiKeyId;
     ue_jobId := jobId;
     ue_pages := pageCount result;
     ue_promptTokens := promptTokens_of result;
     ue_completionTokens := completionTokens_of result;
     ue_model := llmModel result;
     ue_createdAt := db_now env |}.

(** The row of the [tx.insert(apiKeyUsageDaily).values(...)]. *)
Definition daily_values (apiKeyId today : string) (result : CompleteJobResult)
    : DailyUsage :=
  {| du_apiKeyId := apiKeyId;
     du_day := today;
     du_pages := pageCount result;
     du_jobsCount := 1;
     du_promptTokens := promptTokens_of result;
     du_completionTokens := completionTokens_of result |}.

(** The body of the [db.transaction] of [completeJob]. *)
Definition recordUsage (env : Env) (apiKeyId jobId today : string)
    (result : CompleteJobResult) : Tx unit :=
  inserted <~ insert_usageEvent (usage_event env apiKeyId jobId result) ;;
  match inserted with
  | _ :: _ => upsert_apiKeyUsageDaily (daily_values apiKeyId today result)
  | [] => tx_ret tt
  end.

Definition completeJob (env : Env) (jobId : string) (result : CompleteJobResult)
    : Prog unit :=
  let completedAt := clock env in
  updated <- commit (update_jobs jobId (jobSet_of_result completedAt result)) ;;
  _ <- match head updated with
       | Some updatedJob =>
           if truthy (job_apiKeyId updatedJob) then
             let today := isoDate completedAt in
             match job_apiKeyId updatedJob with
             | Some apiKeyId =>
                 transaction (recordUsage env apiKeyId jobId today result)
             | None => ret tt
             end
           else ret tt
       | None => ret tt
       end ;;
  publishJobUpdate jobId (completed_message jobId result).

Definition jobSet_of_failure (errorCode errorMessage : string) (retryCount : Z)
    : JobSet :=
  {| set_status := Some failed;
     set_llmModel := None;
     set_markdownResult := None;
     set_jsonResult := None;
     set_pageCount := None;
     set_tokenCount := None;
     set_errorCode := Some errorCode;
     set_errorMessage := Some errorMessage;
     set_retryCount := Some retryCount;
     set_startedAt := None;
     set_completedAt := None;
     set_processingTimeMs := None |}.

Definition error_message (jobId errorMessage : string) : JobUpdateMessage :=
  {| msg_data := {| data_status := Some failed;
                    data_processingTimeMs := None;
                    data_jsonResult := None;
                    data_markdownResult := None;
                    data_error := Some errorMessage |};
     msg_jobId := jobId;
     msg_type := type_error |}.

Definition failJob (jobId errorCode errorMessage : string) (shouldRetry : bool)
    : Prog unit :=
  fun w =>
    let job := findFirst (is_job jobId) (db w) in
    let retryCount := default 0 (job_retryCount <$> job) + 1 in
    (_ <- commit (update_jobs jobId
                    (jobSet_of_failure errorCode errorMessage retryCount)) ;;
     if negb shouldRetry
     then publishJobUpdate jobId (error_message jobId errorMessage)
     else ret tt) w.

(** [getJobById] without the join on [schema]. *)
Definition getJobById (jobId : string) (w : World) : option Job :=
  findFirst (is_job jobId) (db w).

(** ** API keys ([lib/api-key.ts]) *)

(** [key.slice(0, 8)]. *)
Definition getKeyPrefix (key : string) : string := String.substring 0 8 key.

(** [s.split(sep)] for a one-character separator. *)
Fixpoint str_split (sep : ascii) (s : string) : list string :=
  match s with
  | EmptyString => [EmptyString]
  | String c s' =>
      if bool_decide (c = sep) then EmptyString :: str_split sep s'
      else match str_split sep s' with
           | piece :: pieces => String c piece :: pieces
           | [] => [String c EmptyString]
           end
  end.

(** The lower case of a code unit below 256: of the letters A to Z and,
    above ASCII, of U+00C0 to U+00DE without the multiplication sign
    U+00D7; every other code unit is its own lower case. *)
Definition lower (c : ascii) : ascii :=
  let n := nat_of_ascii c in
  if ((65 <=? n) && (n <=? 90)
      || (192 <=? n) && (n <=? 222) && negb (n =? 215))%nat
  then ascii_of_nat (n + 32) else c.

(** [s.toLowerCase()]. *)
Fixpoint toLowerCase (s : string) : string :=
  match s with
  | EmptyString => EmptyString
  | String c s' => String (lower c) (toLowerCase s')
  end.

(** The white space [String.prototype.trim] strips (WhiteSpace and
    LineTerminator of ECMAScript), among the code units a [string] can
    hold: TAB, LF, VT, FF, CR, SP and the no-break space U+00A0.  A
    [string] is a JavaScript string with one character per code unit,
    each code unit below 256, which is what the value of an HTTP header
    is (a ByteString); the other white space of ECMAScript (U+FEFF,
    U+2028, U+2029 and the space separators from U+1680 on) lies above
    that range. *)
Definition isWhiteSpace (c : ascii) : bool :=
  let n := nat_of_ascii c in
  ((9 <=? n) && (n <=? 13) || (n =? 32) || (n =? 160))%nat.

Fixpoint trimStart (s : string) : string :=
  match s with
  | String c s' => if isWhiteSpace c then trimStart s' else s
  | EmptyString => EmptyString
  end.

(** [s.trim()]. *)
Definition trim (s : string) : string :=
  String.rev (trimStart (String.rev (trimStart s))).

(** [interface ApiKeyInfo]. *)
Record ApiKeyInfo : Set := mkApiKeyInfo {
  id : string;
  name : string;
  organizationId : string;
  userId : string
}.

(** A read of the store. *)
Definition query {A} (f : Db -> A) : Prog A := fun w => (Ok (f (db w)), w).

(** [db.update(apiKeys).set({ lastUsedAt, requestCount: requestCount + 1 })
       .where(eq(apiKeys.id, id))]. *)
Definition touch_key (now : Z) (k : ApiKey) : ApiKey :=
  {| key_id := key_id k; key_name := key_name k; key_keyHash := key_keyHash k;
     key_organizationId := key_organizationId k; key_userId := key_userId k;
     key_isActive := key_isActive k;
     key_requestCount := key_requestCount k + 1;
     key_lastUsedAt := Some now |}.

Definition update_apiKey_usage (now : Z) (keyId : string) : Tx unit :=
  fun d =>
    let hit k := bool_decide (key_id k = keyId) in
    let rows := map (fun k => if hit k then touch_key now k else k) (apiKeys d) in
    if forallb (fun k => int4_ok (key_requestCount k)) (filter hit rows)
    then Ok (tt, with_apiKeys rows d)
    else Thrown IntegerOutOfRange.

Section ApiKeys.

(** [crypto.subtle.digest("SHA-256", ...)] of the UTF-8 bytes of the key,
    printed as lower-case hexadecimal. *)
Variable sha256_hex : string -> string.

Definition hashApiKey (key : string) : string := sha256_hex key.

Definition validateApiKey (env : Env) (authHeader : option string)
    (updateUsage : bool) : Prog (option ApiKeyInfo) :=
  if negb (truthy authHeader) then ret None
  else
    match str_split " " (default "" authHeader) with
    | [] => ret None
    | scheme :: rest =>
        if negb (bool_decide (toLowerCase scheme = "bearer")) then ret None
        else
          let token := trim (String.concat " " rest) in
          if bool_decide (token = "") || negb (String.prefix "sk_" token)
          then ret None
          else
            let keyHash := hashApiKey token in
            found <- query (fun d =>
                       head (filter (fun k => bool_decide (key_keyHash k = keyHash))
                               (apiKeys d))) ;;
            match found with
            | None => ret None
            | Some foundKey =>
                if negb (key_isActive foundKey) then ret None
                else
                  _ <- (if updateUsage
                        then commit (update_apiKey_usage (clock env) (key_id foundKey))
                        else ret tt) ;;
                  ret (Some {| id := key_id foundKey;
                               name := key_name foundKey;
                               organizationId := key_organizationId foundKey;
                               userId := key_userId foundKey |})
            end
    end.

End ApiKeys.

(** ** Real-time gateway ([/ws/jobs/:jobId]) *)

(** What the handler reads of the result of [auth.api.getSession]. *)
Record Session : Set := mkSession {
  session_user : option string;              (* session.user?.id *)
  activeOrganizationId : option string       (* session.session.activeOrganizationId *)
}.

Definition conn_new (hdrs : Headers) (jobId : string) : Conn :=
  {| sent := []; closeCalled := false; closed := false; wsData := None;
     phase := AwaitIdentity hdrs jobId |}.

Definition set_phase (p : OpenPhase) (c : Conn) : Conn :=
  {| sent := sent c; closeCalled := closeCalled c; closed := closed c;
     wsData := wsData c; phase := p |}.

Definition set_wsData (d : WebSocketData) (c : Conn) : Conn :=
  {| sent := sent c; closeCalled := closeCalled c; closed := closed c;
     wsData := Some d; phase := phase c |}.

Definition set_closeCalled (c : Conn) : Conn :=
  {| sent := sent c; closeCalled := true; closed := closed c;
     wsData := wsData c; phase := phase c |}.

Definition set_closed (c : Conn) : Conn :=
  {| sent := sent c; closeCalled := closeCalled c; closed := true;
     wsData := wsData c; phase := phase c |}.

Definition on_conn (f : Conn -> Conn) (c : nat) (w : World) : World :=
  with_conns (alter f c (conns w)) w.

(** [ws.send(JSON.stringify({ error, type: "error" })); ws.close(); return]. *)
Definition reject (error : string) (c : nat) (w : World) : World :=
  on_conn (set_phase Returned)
    c (on_conn set_closeCalled c (on_conn (push_frame (FrameError error)) c w)).

Module jobsWebSocket.
Section Handlers.

Variable sha256_hex : string -> string.

(** [auth.api.getSession({ headers })], on headers that carry at most a
    cookie. *)
Variable getSession : option string -> option Session.

(** [JSON.parse(message).type === "ping"], false when the parse throws. *)
Variable isPing : string -> bool.

(** [open(ws)] up to its first [await]: the connection exists and the
    handler holds [ws.data.params.jobId] and the request headers. *)
Definition open_begin (c : nat) (hdrs : Headers) (jobId : string) (w : World) : World :=
  with_conns (<[c := conn_new hdrs jobId]> (conns w)) w.

(** [open(ws)] from the identity lookups to [await findFirst]. *)
Definition open_identity (env : Env) (c : nat) (w : World) : World :=
  match phase <$> conns w !! c with
  | Some (AwaitIdentity hdrs jobId) =>
      match validateApiKey sha256_hex env (authorization hdrs) false w with
      | (Ok (Some apiKeyAuth), w') =>
          on_conn (set_phase (AwaitJob jobId (userId apiKeyAuth)
                                (organizationId apiKeyAuth))) c w'
      | (Ok None, w') =>
          let cookieHeader := if truthy (cookie hdrs) then cookie hdrs else None in
          match getSession cookieHeader with
          | Some session =>
              match session_user session, activeOrganizationId session with
              | Some user, Some org =>
                  if bool_decide (org = "") then reject "Unauthorized" c w'
                  else on_conn (set_phase (AwaitJob jobId user org)) c w'
              | _, _ => reject "Unauthorized" c w'
              end
          | None => reject "Unauthorized" c w'
          end
      | (Thrown _, w') => on_conn (set_phase Returned) c w'
      end
  | _ => w
  end.

Definition job_in_org (jobId organizationId : string) (j : Job) : bool :=
  is_job jobId j && bool_decide (job_organizationId j = organizationId).

(** The first message a subscriber gets:
    [{ data: { status: job.status }, jobId, type: "status" }]. *)
Definition current_status (jobId : string) (j : Job) : JobUpdateMessage :=
  {| msg_data := {| data_status := Some (job_status j);
                    data_processingTimeMs := None;
                    data_jsonResult := None;
                    data_markdownResult := None;
                    data_error := None |};
     msg_jobId := jobId;
     msg_type := type_status |}.

(** [open(ws)] from the answer of [findFirst] to its end. *)
Definition open_job (c : nat) (w : World) : World :=
  match phase <$> conns w !! c with
  | Some (AwaitJob jobId userId organizationId) =>
      match findFirst (job_in_org jobId organizationId) (db w) with
      | None => reject "Job not found" c w
      | Some job =>
          let callback : Callback := c in
          let w1 := on_conn (set_wsData {| wsd_callback := callback;
                                           wsd_jobId := jobId;
                                           wsd_organizationId := organizationId;
                                           wsd_userId := userId |}) c w in
          let w2 := subscribeToJob jobId callback w1 in
          let w3 := on_conn (push_frame (FrameUpdate (current_status jobId job))) c w2 in
          on_conn (set_phase Returned) c w3
      end
  | _ => w
  end.

(** [open(ws)] when nothing else runs between its [await]s. *)
Definition open (env : Env) (c : nat) (hdrs : Headers) (jobId : string)
    (w : World) : World :=
  open_job c (open_identity env c (open_begin c hdrs jobId w)).

(** [close(ws)]. *)
Definition close (c : nat) (w : World) : World :=
  let w' := on_conn set_closed c w in
  match conns w !! c ≫= wsData with
  | Some wsData => unsubscribeFromJob (wsd_jobId wsData) (wsd_callback wsData) w'
  | None => w'
  end.

(** [message(ws, message)] for a string message. *)
Definition message (c : nat) (message : string) (w : World) : World :=
  if isPing message then on_conn (push_frame FramePong) c w else w.

End Handlers.
End jobsWebSocket.

(** ** Vocabulary of the statements *)

(** The usage events of a job, and the rows and events of one
    (API key, day) pair.  An event is created on the UTC date of its
    [created_at]. *)
Definition events_of (jobId : string) (d : Db) : list UsageEvent :=
  filter (event_of_job jobId) (usageEvents d).

Definition rows_of (apiKeyId day : string) (d : Db) : list DailyUsage :=
  filter (is_daily apiKeyId day) (apiKeyUsageDaily d).

Definition event_on (apiKeyId day : string) (e : UsageEvent) : bool :=
  bool_decide (ue_apiKeyId e = apiKeyId) && bool_decide (isoDate (ue_createdAt e) = day).

Definition events_on (apiKeyId day : string) (d : Db) : list UsageEvent :=
  filter (event_on apiKeyId day) (usageEvents d).

Definition sumZ (l : list Z) : Z := foldr Z.add 0 l.

(** A row of the aggregate holds the sums of a list of events. *)
Definition sums_up (r : DailyUsage) (es : list UsageEvent) : Prop :=
  du_pages r = sumZ (ue_pages <$> es)
  /\ du_jobsCount r = Z.of_nat (length es)
  /\ du_promptTokens r = sumZ (ue_promptTokens <$> es)
  /\ du_completionTokens r = sumZ (ue_completionTokens <$> es).

(** Aggregate consistency: every (API key, day) pair has at most one row,
    which holds the sums of the pair's events; a pair without a row has
    no event. *)
Definition aggregate_consistent (d : Db) : Prop :=
  forall apiKeyId day,
    match rows_of apiKeyId day d with
    | [] => events_on apiKeyId day d = []
    | [r] => sums_up r (events_on apiKeyId day d)
    | _ :: _ :: _ => False
    end.

(** The two things a call can do to the ledger: nothing, or record the
    usage of one job, its event and its day's aggregate together. *)
Definition ledger_unchanged (w w' : World) : Prop :=
  usageEvents (db w') = usageEvents (db w)
  /\ apiKeyUsageDaily (db w') = apiKeyUsageDaily (db w).

Definition ledger_recorded (env : Env) (apiKeyId jobId : string)
    (result : CompleteJobResult) (w w' : World) : Prop :=
  usageEvents (db w') = usageEvents (db w) ++ [usage_event env apiKeyId jobId result]
  /\ apiKeyUsageDaily (db w')
     = daily_rows (daily_values apiKeyId (isoDate (clock env)) result)
         (apiKeyUsageDaily (db w)).

(** The same two things in the words of the specification.  The usage
    event of a job: one more row, of that job and that key, with the
    job's pages, the tokens of its [llmUsage] (0 where it has none) and
    its model, stamped by the database. *)
Definition event_recorded (env : Env) (apiKeyId jobId : string)
    (result : CompleteJobResult) (d d' : Db) : Prop :=
  exists e,
    usageEvents d' = usageEvents d ++ [e]
    /\ ue_id e = createId env id_usageEvent
    /\ ue_jobId e = jobId
    /\ ue_apiKeyId e = apiKeyId
    /\ ue_pages e = pageCount result
    /\ ue_promptTokens e = default 0 (promptTokens <$> llmUsage result)
    /\ ue_completionTokens e = default 0 (completionTokens <$> llmUsage result)
    /\ ue_model e = llmModel result
    /\ ue_createdAt e = db_now env.

(** Row [r'] is row [r] with the counts of one job added: its pages, one
    job, its tokens. *)
Definition counted_once (result : CompleteJobResult) (r r' : DailyUsage) : Prop :=
  du_apiKeyId r' = du_apiKeyId r
  /\ du_day r' = du_day r
  /\ du_pages r' = du_pages r + pageCount result
  /\ du_jobsCount r' = du_jobsCount r + 1
  /\ du_promptTokens r' = du_promptTokens r + default 0 (promptTokens <$> llmUsage result)
  /\ du_completionTokens r' = du_completionTokens r
                              + default 0 (completionTokens <$> llmUsage result).

(** A pair that has used nothing: the columns' defaults. *)
Definition no_usage (apiKeyId day : string) : DailyUsage :=
  {| du_apiKeyId := apiKeyId; du_day := day; du_pages := 0; du_jobsCount := 0;
     du_promptTokens := 0; du_completionTokens := 0 |}.

(** The aggregate of [(apiKeyId, day)] is incremented by the counts of one
    job: the pair's row has them added, or, if the pair had no row, it
    has one row now, with these counts; the rows of every other pair are
    as they were. *)
Definition aggregate_incremented (apiKeyId day : string)
    (result : CompleteJobResult) (d d' : Db) : Prop :=
  match rows_of apiKeyId day d with
  | [] => exists r', rows_of apiKeyId day d' = [r']
                     /\ counted_once result (no_usage apiKeyId day) r'
  | rows => Forall2 (counted_once result) rows (rows_of apiKeyId day d')
  end
  /\ forall k dy, (k, dy) <> (apiKeyId, day) -> rows_of k dy d' = rows_of k dy d.

(** The store accepts the usage of a job that has no event yet: the id of
    the event is free, the key exists, the token counts fit their
    columns, and so do the sums of the pair's row, if it has one. *)
Definition usage_accepted (env : Env) (apiKeyId : string)
    (result : CompleteJobResult) (d : Db) : Prop :=
  let prompt := default 0 (promptTokens <$> llmUsage result) in
  let completion := default 0 (completionTokens <$> llmUsage result) in
  (createId env id_usageEvent ∉ ue_id <$> usageEvents d)
  /\ (apiKeyId ∈ key_id <$> apiKeys d)
  /\ int4_ok prompt = true /\ int4_ok completion = true
  /\ Forall (fun r => int4_ok (du_pages r + pageCount result) = true
                      /\ int4_ok (du_jobsCount r + 1) = true
                      /\ int4_ok (du_promptTokens r + prompt) = true
                      /\ int4_ok (du_completionTokens r + completion) = true)
       (rows_of apiKeyId (isoDate (clock env)) d).

(** An instant [new Date()] reads on a running system: one of the years
    1970 to 9999, which [toISOString] prints with four digits. *)
Definition wall_clock (env : Env) : Prop :=
  0 <= clock env < 253402300800000.

(** The state machine of the specification (section 4.1), as the table
    gives it: the states a status may be entered from. [failed] may be
    left again for [processing] by a retry. *)
Definition entered_from (to from : JobStatus) : bool :=
  match to, from with
  | processing, pending => true
  | processing, failed => true
  | extracting, processing => true
  | completed, processing => true
  | completed, extracting => true
  | failed, pending => true
  | failed, processing => true
  | failed, extracting => true
  | _, _ => false
  end.

(** A call into the job store. *)
Inductive JobStoreCall : Set :=
  | CallUpdateJobStatus (jobId : string) (status : JobStatus) (data : option UpdateData)
  | CallCompleteJob (env : Env) (jobId : string) (result : CompleteJobResult)
  | CallFailJob (jobId errorCode errorMessage : string) (shouldRetry : bool).

Definition call (c : JobStoreCall) : Prog unit :=
  match c with
  | CallUpdateJobStatus jobId status data => updateJobStatus jobId status data
  | CallCompleteJob env jobId result => completeJob env jobId result
  | CallFailJob jobId errorCode errorMessage shouldRetry =>
      failJob jobId errorCode errorMessage shouldRetry
  end.

(** The world after a sequence of calls, each awaited before the next;
    a call that throws leaves what it had committed. *)
Definition run (calls : list JobStoreCall) (w : World) : World :=
  foldl (fun w c => snd (call c w)) w calls.

(** A completion whose two clock readings fall on the same UTC date. *)
Definition same_day (c : JobStoreCall) : Prop :=
  match c with
  | CallCompleteJob env _ _ => isoDate (db_now env) = isoDate (clock env)
  | _ => True
  end.

(** [completeJob] called again and again for one job. *)
Definition complete_again (jobId : string) (again : list (Env * CompleteJobResult))
    (w : World) : World :=
  run ((fun '(env, result) => CallCompleteJob env jobId result) <$> again) w.

(** A call whose whole effect is one notification: it returns, the store
    is as before, the message is published and every subscriber of the
    job is handed it. *)
Definition notified_without_write (m : JobUpdateMessage) (w : World)
    (r : Outcome unit * World) : Prop :=
  fst r = Ok tt
  /\ db (snd r) = db w
  /\ publishLog (snd r) = publishLog w ++ [m]
  /\ forall c cn, c ∈ subscribers (msg_jobId m) (bus w) ->
       conns w !! c = Some cn ->
       conns (snd r) !! c = Some (push_frame (FrameUpdate m) cn).

(** ** The server as a transition system *)

Section Server.

Variable sha256_hex : string -> string.
Variable getSession : option string -> option Session.
Variable isPing : string -> bool.

(** One thing the event loop runs without interruption: a job store
    call, a gateway handler, or the part of [open] between two of its
    [await]s.  A new socket has a number no socket had before. *)
Inductive step : World -> World -> Prop :=
  | step_call c w :
      step w (snd (call c w))
  | step_open_begin c hdrs jobId w :
      conns w !! c = None ->
      step w (jobsWebSocket.open_begin c hdrs jobId w)
  | step_open_identity env c w :
      step w (jobsWebSocket.open_identity sha256_hex getSession env c w)
  | step_open_job c w :
      step w (jobsWebSocket.open_job c w)
  | step_message c message w :
      step w (jobsWebSocket.message isPing c message w)
  | step_close c w :
      step w (jobsWebSocket.close c w).

(** The worlds the server can be in, from a start with no socket and an
    empty bus. *)
Inductive reachable : World -> Prop :=
  | reachable_start w :
      bus w = ∅ -> conns w = ∅ -> reachable w
  | reachable_step w w' :
      reachable w -> step w w' -> reachable w'.

End Server.

(** Every subscription of the bus is the one its connection holds in
    [ws.data.wsData], and belongs to a connection whose [open] has
    returned. *)
Definition bus_tracks_wsData (w : World) : Prop :=
  forall jobId c,
    c ∈ subscribers jobId (bus w) ->
    exists cn d,
      conns w !! c = Some cn /\ phase cn = Returned /\ wsData cn = Some d
      /\ wsd_jobId d = jobId /\ wsd_callback d = c.

(** A connection keeps what the bus invariant reads of it. *)
Definition kept (w w' : World) (c : nat) : Prop :=
  wsData <$> conns w' !! c = wsData <$> conns w !! c
  /\ phase <$> conns w' !! c = phase <$> conns w !! c.

(** What the peer of a rejected connection has seen. *)
Definition conn_rejected (error : string) : Conn :=
  {| sent := [FrameError error]; closeCalled := true; closed := false;
     wsData := None; phase := Returned |}.

(** ** Example data *)

Definition job_abc : Job :=
  {| job_id := "job_abc"; job_organizationId := "org_a"; job_userId := "user_1";
     job_apiKeyId := Some "ak_1"; job_status := processing;
     job_llmModel := None; job_markdownResult := None; job_jsonResult := None;
     job_pageCount := None; job_tokenCount := None;
     job_errorCode := None; job_errorMessage := None; job_retryCount := 0;
     job_startedAt := Some 1699999990000; job_completedAt := None;
     job_processingTimeMs := None |}.

Definition ak_1 : ApiKey :=
  {| key_id := "ak_1"; key_name := "ci"; key_keyHash := "#sk_live";
     key_organizationId := "org_a"; key_userId := "user_1";
     key_isActive := true; key_requestCount := 0; key_lastUsedAt := None |}.

Definition ak_2 : ApiKey :=
  {| key_id := "ak_2"; key_name := "other"; key_keyHash := "#sk_other";
     key_organizationId := "org_b"; key_userId := "user_2";
     key_isActive := true; key_requestCount := 0; key_lastUsedAt := None |}.

Definition db0 : Db :=
  {| jobs := [job_abc]; apiKeys := [ak_1; ak_2];
     usageEvents := []; apiKeyUsageDaily := [] |}.

Definition world0 : World :=
  {| db := db0; bus := ∅; publishLog := []; conns := ∅ |}.

(** The result of the specification's scenario. *)
Definition result_hi : CompleteJobResult :=
  {| markdownResult := "# Hi"; jsonResult := None; pageCount := 2;
     tokenCount := Some 50; llmModel := None;
     llmUsage := Some {| promptTokens := 30; completionTokens := 20 |};
     processingTimeMs := 1200 |}.

(** 2023-11-14T22:13:20.000Z on both clocks. *)
Definition env_noon : Env :=
  {| clock := 1700000000000; db_now := 1700000000004; nanoid := "V1StGXR8Z5jdHi6B" |}.

(** The application reads 2023-11-14T23:59:59.999Z; the transaction starts
    two milliseconds later, on 2023-11-15. *)
Definition env_midnight : Env :=
  {| clock := 1700006399999; db_now := 1700006400001; nanoid := "V1StGXR8Z5jdHi6B" |}.

(** A store in which key ak_1 has used 2147483640 prompt tokens on
    2023-11-14, eight short of the largest [integer]; its aggregate row
    agrees with its two events. *)
Definition event_big (n : string) : UsageEvent :=
  {| ue_id := "ue_big" +:+ n; ue_apiKeyId := "ak_1"; ue_jobId := "job_big" +:+ n;
     ue_pages := 45000; ue_promptTokens := 1073741820; ue_completionTokens := 5;
     ue_model := None; ue_createdAt := 1699990000000 |}.

Definition usage_full : DailyUsage :=
  {| du_apiKeyId := "ak_1"; du_day := "2023-11-14"; du_pages := 90000;
     du_jobsCount := 2; du_promptTokens := 2147483640;
     du_completionTokens := 10 |}.

Definition world_full : World :=
  with_db (with_daily [usage_full]
             (with_usageEvents [event_big "1"; event_big "2"] db0)) world0.

(** A store in which key ak_1 has completed job_old earlier on
    2023-11-14: its event and the aggregate row of the day. *)
Definition event_old : UsageEvent :=
  {| ue_id := "ue_old"; ue_apiKeyId := "ak_1"; ue_jobId := "job_old";
     ue_pages := 3; ue_promptTokens := 10; ue_completionTokens := 5;
     ue_model := None; ue_createdAt := 1699990000000 |}.

Definition usage_old : DailyUsage :=
  {| du_apiKeyId := "ak_1"; du_day := "2023-11-14"; du_pages := 3;
     du_jobsCount := 1; du_promptTokens := 10; du_completionTokens := 5 |}.

Definition world_used : World :=
  with_db (with_daily [usage_old] (with_usageEvents [event_old] db0)) world0.

Definition sha_stub (key : string) : string := "#" +:+ key.
Definition no_session (cookie : option string) : option Session := None.
Definition ping_stub (message : string) : bool := bool_decide (message = "ping").

Definition hdrs_a : Headers :=
  {| authorization := Some "Bearer sk_live"; cookie := None |}.
Definition hdrs_b : Headers :=
  {| authorization := Some "Bearer sk_other"; cookie := None |}.


(** The scenario of the specification: job_abc completed once. *)
Definition world_done : World :=
  snd (completeJob env_noon "job_abc" result_hi world0).

(** The store without job_abc. *)
Definition world_nojob : World := with_db (with_jobs [] db0) world0.

(** Connection 7 watches job_abc in the store of [world_full]. *)
Definition world_full_watched : World :=
  jobsWebSocket.open sha_stub no_session env_noon 7 hdrs_a "job_abc" world_full.

(** Calls of one afternoon: the job is picked up, completed, completed
    again by a retried delivery, and another job fails for good. *)
Definition calls_afternoon : list JobStoreCall :=
  [ CallUpdateJobStatus "job_abc" processing None;
    CallCompleteJob env_noon "job_abc" result_hi;
    CallCompleteJob env_noon "job_abc" result_hi;
    CallFailJob "job_zzz" "OCR_TIMEOUT" "OCR request timed out" false ].

(** ** Further vocabulary: the job store *)

(** The columns of a job row that no job store call writes. *)
Definition identity_of (j : Job) : string * string * string * option string :=
  (job_id j, job_organizationId j, job_userId j, job_apiKeyId j).

(** The job a call is about, and the message it publishes when it
    publishes one. *)
Definition call_jobId (c : JobStoreCall) : string :=
  match c with
  | CallUpdateJobStatus jobId _ _ => jobId
  | CallCompleteJob _ jobId _ => jobId
  | CallFailJob jobId _ _ _ => jobId
  end.

Definition call_message (c : JobStoreCall) : option JobUpdateMessage :=
  match c with
  | CallUpdateJobStatus jobId status data => Some (status_message jobId status data)
  | CallCompleteJob _ jobId result => Some (completed_message jobId result)
  | CallFailJob jobId _ errorMessage shouldRetry =>
      if shouldRetry then None else Some (error_message jobId errorMessage)
  end.

(** ** Further vocabulary: the gateway *)

(** What a connection records of its own history: while its [open] has
    not returned it holds no [wsData]; the callback in its [wsData] is its
    own; and it was sent job updates of the job in its [wsData] only. *)
Definition conn_inv (c : nat) (cn : Conn) : Prop :=
  (phase cn <> Returned -> wsData cn = None)
  /\ (forall d, wsData cn = Some d -> wsd_callback d = c)
  /\ (forall m, FrameUpdate m ∈ sent cn ->
        exists d, wsData cn = Some d /\ wsd_jobId d = msg_jobId m).

Definition conns_inv (w : World) : Prop :=
  forall c cn, conns w !! c = Some cn -> conn_inv c cn.

(** A change of a connection that neither touches [wsData] nor adds a job
    update to what was sent. *)
Definition benign (f : Conn -> Conn) : Prop :=
  forall cn, wsData (f cn) = wsData cn
             /\ forall m, FrameUpdate m ∈ sent (f cn) -> FrameUpdate m ∈ sent cn.

(** The identity a session gives, as [open] reads it: a user and a
    non-empty active organization. *)
Definition session_identity (s : option Session) : option (string * string) :=
  match s with
  | Some s =>
      match session_user s, activeOrganizationId s with
      | Some user, Some org =>
          if bool_decide (org = "") then None else Some (user, org)
      | _, _ => None
      end
  | None => None
  end.

(** The cookie [open] hands to [getSession]. *)
Definition cookie_of (hdrs : Headers) : option string :=
  if truthy (cookie hdrs) then cookie hdrs else None.

(** A connection right after an [open] that found its job. *)
Definition conn_subscribed (c : nat) (jobId userId organizationId : string)
    (j : Job) : Conn :=
  {| sent := [FrameUpdate (jobsWebSocket.current_status jobId j)];
     closeCalled := false; closed := false;
     wsData := Some {| wsd_callback := c; wsd_jobId := jobId;
                       wsd_organizationId := organizationId;
                       wsd_userId := userId |};
     phase := Returned |}.

(** ** Further vocabulary: API keys *)

(** [generateApiKey], given the output of its [nanoid]. *)
Definition generateApiKey (nano : string) : string := "sk_" +:+ nano.

(** The alphabet of [customAlphabet(ALPHABET, 32)]. *)
Definition ALPHABET : string :=
  "0123456789ABCDEFGHIJKLMNOPQRSTUVWXYZabcdefghijklmnopqrstuvwxyz".

Fixpoint has_char (c : ascii) (s : string) : bool :=
  match s with
  | EmptyString => false
  | String a s' => bool_decide (a = c) || has_char c s'
  end.

Fixpoint every (p : ascii -> bool) (s : string) : bool :=
  match s with
  | EmptyString => true
  | String c s' => p c && every p s'
  end.

(** Every character of [s] is one of [alphabet]. *)
Definition over (alphabet s : string) : bool :=
  every (fun c => has_char c alphabet) s.

(** The token [validateApiKey] reads off an Authorization header: the
    part of the function before it touches the store. *)
Definition bearer_token (authHeader : option string) : option string :=
  if negb (truthy authHeader) then None
  else
    match str_split " " (default "" authHeader) with
    | [] => None
    | scheme :: rest =>
        if negb (bool_decide (toLowerCase scheme = "bearer")) then None
        else
          let token := trim (String.concat " " rest) in
          if bool_decide (token = "") || negb (String.prefix "sk_" token)
          then None
          else Some token
    end.

(** The row the [select ... where keyHash = ... limit 1] finds. *)
Definition find_key (keyHash : string) (keys : list ApiKey) : option ApiKey :=
  head (filter (fun k => bool_decide (key_keyHash k = keyHash)) keys).

Definition info_of (k : ApiKey) : ApiKeyInfo :=
  {| id := key_id k; name := key_name k;
     organizationId := key_organizationId k; userId := key_userId k |}.

(** The rows of [api_keys] after the usage update of key [keyId]. *)
Definition touched (now : Z) (keyId : string) (keys : list ApiKey) : list ApiKey :=
  map (fun k => if bool_decide (key_id k = keyId) then touch_key now k else k) keys.

(** ** Further example data *)

(** A session of some user of organization org_b, whatever the cookie. *)
Definition session_stub (cookie : option string) : option Session :=
  Some {| session_user := Some "user_9"; activeOrganizationId := Some "org_b" |}.

(** Connection 7 watches job_abc, which then fails for good. *)
Definition world_watching : World :=
  snd (failJob "job_abc" "OCR_TIMEOUT" "OCR request timed out" false
         (jobsWebSocket.open sha_stub no_session env_noon 7 hdrs_a "job_abc" world0)).

Definition conn_watching : Conn :=
  push_frame (FrameUpdate (error_message "job_abc" "OCR request timed out"))
    (conn_subscribed 7 "job_abc" "user_1" "org_a" job_abc).

Definition hdrs_basic : Headers :=
  {| authorization := Some "Basic dXNlcjpwYXNz"; cookie := None |}.

(** A header with a no-break space (U+00A0) before and after the key. *)
Definition header_nbsp : string :=
  "Bearer " +:+ String "160" ("sk_live" +:+ String "160" "").

(** A job uploaded from the web application: no API key owns it. *)
Definition job_web : Job :=
  {| job_id := "job_web"; job_organizationId := "org_b"; job_userId := "user_9";
     job_apiKeyId := None; job_status := pending;
     job_llmModel := None; job_markdownResult := None; job_jsonResult := None;
     job_pageCount := None; job_tokenCount := None;
     job_errorCode := None; job_errorMessage := None; job_retryCount := 0;
     job_startedAt := None; job_completedAt := None;
     job_processingTimeMs := None |}.

Definition world_web : World := with_db (with_jobs [job_abc; job_web] db0) world0.

(** A result whose page count does not fit an [integer] column. *)
Definition result_huge : CompleteJobResult :=
  {| markdownResult := "# Hi"; jsonResult := None; pageCount := 2147483648;
     tokenCount := None; llmModel := None; llmUsage := None;
     processingTimeMs := 1200 |}.

(** ** The client of the gateway ([packages/sdk/src/domains/websocket.ts]) *)

(** A call of one of the [WebSocketCallbacks] (made when the callback is
    given). *)
Inductive CallbackCall : Set :=
  | OnStatus (status : JobStatus)
  | OnComplete (jsonResult markdownResult : option string) (processingTimeMs : option Z)
  | OnError (error : string).

(** The handler of [ws.on("message", ...)], on a message of the server:
    the callbacks it calls. *)
Definition onMessage (message : Frame) : list CallbackCall :=
  match message with
  | FramePong => []
  | FrameError error => [OnError error]
  | FrameUpdate jobMessage =>
      let data := msg_data jobMessage in
      (match msg_type jobMessage, data_status data with
       | type_status, Some status => [OnStatus status]
       | _, _ => []
       end)
      ++ (match msg_type jobMessage with
          | type_completed =>
              [OnComplete (data_jsonResult data) (data_markdownResult data)
                 (data_processingTimeMs data)]
          | _ => []
          end)
      ++ (match msg_type jobMessage with
          | type_error => if truthy (data_error data)
                          then [OnError (default "" (data_error data))]
                          else []
          | _ => []
          end)
  end.
(** * Properties *)

(** ** Statements of the store *)

Lemma applySet_id u j : job_id (applySet u j) = job_id j.
Proof. reflexivity. Qed.

Lemma applySet_apiKeyId u j : job_apiKeyId (applySet u j) = job_apiKeyId j.
Proof. reflexivity. Qed.

Lemma is_job_applySet jobId u j : is_job jobId (applySet u j) = is_job jobId j.
Proof. reflexivity. Qed.

Lemma find_update_rows jobId u rows :
  find (is_job jobId) (update_rows jobId u rows)
  = applySet u <$> find (is_job jobId) rows.
Proof.
  induction rows as [|j rows IH]; simpl; [done|].
  destruct (is_job jobId j) eqn:E; simpl.
  - by rewrite is_job_applySet, E.
  - by rewrite E.
Qed.

Lemma head_filter_find {A} (p : A -> bool) (l : list A) :
  head (filter p l) = find p l.
Proof.
  induction l as [|a l IH]; simpl; [done|].
  destruct (p a) eqn:E.
  - rewrite filter_cons_True by (by rewrite E). done.
  - rewrite filter_cons_False by (rewrite E; auto). done.
Qed.

Lemma update_rows_absent jobId u rows :
  find (is_job jobId) rows = None -> update_rows jobId u rows = rows.
Proof.
  induction rows as [|j rows IH]; simpl; [done|].
  destruct (is_job jobId j) eqn:E; [done|]. intros H. by rewrite IH.
Qed.

Lemma with_jobs_same d : with_jobs (jobs d) d = d.
Proof. by destruct d. Qed.

Lemma with_db_same w : with_db (db w) w = w.
Proof. by destruct w. Qed.

(** What [publishJobUpdate] leaves alone. *)
Lemma publishJobUpdate_eq jobId m w :
  publishJobUpdate jobId m w
  = (Ok tt,
     with_conns (foldr (call_callback m) (conns w)
                   (elements (subscribers jobId (bus w))))
       (with_publishLog (publishLog w ++ [m]) w)).
Proof. reflexivity. Qed.

(** [updateJobStatus], statement by statement. *)
Lemma updateJobStatus_eq jobId status data w :
  updateJobStatus jobId status data w
  = if jobSet_ok (jobSet_of_update status data)
    then publishJobUpdate jobId (status_message jobId status data)
           (with_db (with_jobs (update_rows jobId (jobSet_of_update status data)
                                  (jobs (db w))) (db w)) w)
    else (Thrown IntegerOutOfRange, w).
Proof.
  unfold updateJobStatus, bind, commit, update_jobs.
  by destruct (jobSet_ok _).
Qed.

(** [failJob], statement by statement. *)
Lemma failJob_eq jobId errorCode errorMessage shouldRetry w :
  let retryCount := default 0 (job_retryCount <$> getJobById jobId w) + 1 in
  let u := jobSet_of_failure errorCode errorMessage retryCount in
  failJob jobId errorCode errorMessage shouldRetry w
  = if int4_ok retryCount
    then
      let w1 := with_db (with_jobs (update_rows jobId u (jobs (db w))) (db w)) w in
      if shouldRetry then (Ok tt, w1)
      else publishJobUpdate jobId (error_message jobId errorMessage) w1
    else (Thrown IntegerOutOfRange, w).
Proof.
  intros retryCount u. unfold failJob, bind, commit, update_jobs.
  fold (getJobById jobId w). fold retryCount. fold u.
  replace (jobSet_ok u) with (int4_ok retryCount)
    by (unfold jobSet_ok; simpl; by rewrite andb_true_r).
  destruct (int4_ok retryCount); [|done].
  by destruct shouldRetry.
Qed.

(** [completeJob], statement by statement. *)
Lemma completeJob_eq env jobId result w :
  let u := jobSet_of_result (clock env) result in
  let w1 := with_db (with_jobs (update_rows jobId u (jobs (db w))) (db w)) w in
  let publish := publishJobUpdate jobId (completed_message jobId result) in
  completeJob env jobId result w
  = if jobSet_ok u then
      match getJobById jobId w ≫= job_apiKeyId with
      | Some apiKeyId =>
          if bool_decide (apiKeyId = "") then publish w1
          else match recordUsage env apiKeyId jobId (isoDate (clock env)) result (db w1) with
               | Ok (_, d2) => publish (with_db d2 w1)
               | Thrown e => (Thrown e, w1)
               end
      | None => publish w1
      end
    else (Thrown IntegerOutOfRange, w).
Proof.
  intros u w1 publish. unfold completeJob, bind, commit, update_jobs, transaction, commit.
  fold u. destruct (jobSet_ok u); [|done]. simpl.
  rewrite head_filter_find, find_update_rows.
  unfold getJobById, findFirst. fold w1.
  destruct (find (is_job jobId) (jobs (db w))) as [j|]; simpl; [|done].
  destruct (job_apiKeyId j) as [k|]; simpl; [|done].
  destruct (bool_decide (k = "")); simpl; [done|].
  by destruct (recordUsage _ _ _ _ _ _) as [[[] d2]|e].
Qed.


Lemma foldr_call_callback m (l : list Callback) (cs : gmap nat Conn) c :
  NoDup l ->
  foldr (call_callback m) cs l !! c
  = if decide (c ∈ l) then push_frame (FrameUpdate m) <$> cs !! c else cs !! c.
Proof.
  induction 1 as [|a l Ha Hl IH]; cbn [foldr].
  - rewrite decide_False; [done|]. by intros ?%elem_of_nil.
  - unfold call_callback at 1, ws_send. rewrite lookup_alter.
    destruct (decide (a = c)) as [->|Hne].
    + rewrite IH.
      rewrite (decide_False (P := c ∈ l)) by done.
      rewrite decide_True by apply list_elem_of_here. done.
    + rewrite IH.
      destruct (decide (c ∈ l)) as [Hc|Hc].
      * rewrite decide_True by (by apply list_elem_of_further). done.
      * rewrite decide_False; [done|].
        intros [->|?]%elem_of_cons; done.
Qed.

(** Publishing hands the message to every subscriber of the job and to
    nobody else. *)
Lemma publishJobUpdate_delivers jobId m w c :
  conns (snd (publishJobUpdate jobId m w)) !! c
  = if decide (c ∈ subscribers jobId (bus w))
    then push_frame (FrameUpdate m) <$> conns w !! c
    else conns w !! c.
Proof.
  simpl. rewrite foldr_call_callback by apply NoDup_elements.
  destruct (decide (c ∈ elements _)) as [H|H];
    rewrite elem_of_elements in H.
  - by rewrite decide_True.
  - by rewrite decide_False.
Qed.

Lemma publishJobUpdate_notified jobId m w :
  msg_jobId m = jobId ->
  notified_without_write m w (publishJobUpdate jobId m w).
Proof.
  intros <-. split; [done|]. split; [done|]. split; [done|].
  intros c cn Hc Hcn. rewrite publishJobUpdate_delivers.
  rewrite decide_True by done. by rewrite Hcn.
Qed.

Lemma publishJobUpdate_db jobId m w : db (snd (publishJobUpdate jobId m w)) = db w.
Proof. reflexivity. Qed.

Lemma publishJobUpdate_bus jobId m w : bus (snd (publishJobUpdate jobId m w)) = bus w.
Proof. reflexivity. Qed.

(** The transaction of [completeJob], when it commits. *)
Lemma recordUsage_cases env apiKeyId jobId today result d :
  match recordUsage env apiKeyId jobId today result d with
  | Ok (_, d') =>
      if existsb (event_of_job jobId) (usageEvents d) then d' = d
      else d' = with_daily
                  (daily_rows (daily_values apiKeyId today result) (apiKeyUsageDaily d))
                  (with_usageEvents
                     (usageEvents d ++ [usage_event env apiKeyId jobId result]) d)
  | Thrown _ => True
  end.
Proof.
  unfold recordUsage, tx_bind, insert_usageEvent. simpl.
  destruct (negb (event_ok _)); [done|].
  destruct (existsb (event_of_job jobId) (usageEvents d)); [done|].
  destruct (existsb _ (usageEvents d)); [done|].
  destruct (negb (has_key apiKeyId d)); [done|].
  unfold upsert_apiKeyUsageDaily, daily_rows. simpl.
  destruct (negb (daily_ok _)); [done|].
  destruct (has_daily _ (apiKeyUsageDaily d)).
  - by destruct (forallb _ _).
  - unfold has_key. simpl. by destruct (existsb _ (apiKeys d)).
Qed.

Lemma recordUsage_jobs env apiKeyId jobId today result d u d' :
  recordUsage env apiKeyId jobId today result d = Ok (u, d') ->
  jobs d' = jobs d /\ apiKeys d' = apiKeys d.
Proof.
  intros H. pose proof (recordUsage_cases env apiKeyId jobId today result d) as C.
  rewrite H in C. destruct (existsb _ _); by subst.
Qed.

(** The job row write of [completeJob] stays whatever its transaction
    does. *)
Lemma completeJob_jobs env jobId result w :
  jobSet_ok (jobSet_of_result (clock env) result) = true ->
  jobs (db (snd (completeJob env jobId result w)))
  = update_rows jobId (jobSet_of_result (clock env) result) (jobs (db w)).
Proof.
  intros Hok. rewrite completeJob_eq. simpl. rewrite Hok.
  destruct (getJobById jobId w ≫= job_apiKeyId) as [k|]; [|done].
  destruct (bool_decide (k = "")); [done|].
  destruct (recordUsage _ _ _ _ _ _) as [[[] d2]|e] eqn:E; [|done].
  apply recordUsage_jobs in E as [E _]. simpl. by rewrite E.
Qed.


(** C6: a call to failJob on a stored job writes its retry count plus
    one, whatever shouldRetry is (the call is one the store accepts: the
    sum is an [integer]). *)
Theorem failJob_increments_retryCount jobId errorCode errorMessage shouldRetry w j :
  getJobById jobId w = Some j ->
  int4_ok (job_retryCount j + 1) = true ->
  let r := failJob jobId errorCode errorMessage shouldRetry w in
  fst r = Ok tt
  /\ job_retryCount <$> getJobById jobId (snd r) = Some (job_retryCount j + 1).
Proof.
  intros Hj Hok r. subst r. rewrite failJob_eq. rewrite Hj. simpl. rewrite Hok.
  destruct shouldRetry; simpl; (split; [done|]);
    unfold getJobById, findFirst; simpl; rewrite find_update_rows;
    unfold getJobById, findFirst in Hj; by rewrite Hj.
Qed.

Lemma getJobById_update_rows jobId u w rows' :
  rows' = update_rows jobId u (jobs (db w)) ->
  getJobById jobId (with_db (with_jobs rows' (db w)) w)
  = applySet u <$> getJobById jobId w.
Proof. intros ->. unfold getJobById, findFirst. simpl. apply find_update_rows. Qed.

Lemma getJobById_jobs jobId w w' :
  jobs (db w') = jobs (db w) -> getJobById jobId w' = getJobById jobId w.
Proof. unfold getJobById, findFirst. by intros ->. Qed.

Lemma getJobById_completeJob env jobId result w :
  jobSet_ok (jobSet_of_result (clock env) result) = true ->
  getJobById jobId (snd (completeJob env jobId result w))
  = applySet (jobSet_of_result (clock env) result) <$> getJobById jobId w.
Proof.
  intros Hok. unfold getJobById, findFirst.
  rewrite completeJob_jobs by done. apply find_update_rows.
Qed.

(** What [completeJob] publishes: its message when it returns, nothing
    when it throws. *)
Lemma completeJob_publishLog env jobId result w :
  let r := completeJob env jobId result w in
  publishLog (snd r)
  = publishLog w ++ match fst r with
                    | Ok _ => [completed_message jobId result]
                    | Thrown _ => []
                    end.
Proof.
  intros r. subst r. rewrite completeJob_eq. simpl.
  destruct (jobSet_ok _); [|by rewrite app_nil_r].
  destruct (getJobById jobId w ≫= job_apiKeyId) as [k|]; [|done].
  destruct (bool_decide (k = "")); [done|].
  destruct (recordUsage _ _ _ _ _ _) as [[[] d2]|e]; [done|].
  simpl. by rewrite app_nil_r.
Qed.

(** C5, as the code has it: the job store writes the status it is told to
    write, whatever the stored status is.  On a stored job a call the
    store accepts leaves the status given to updateJobStatus, completed
    after completeJob and failed after failJob; no call looks at the
    status it replaces. *)
Theorem job_store_overwrites_status jobId w j :
  getJobById jobId w = Some j ->
  (forall status data,
     jobSet_ok (jobSet_of_update status data) = true ->
     job_status <$> getJobById jobId (snd (updateJobStatus jobId status data w))
     = Some status)
  /\ (forall env result,
     jobSet_ok (jobSet_of_result (clock env) result) = true ->
     job_status <$> getJobById jobId (snd (completeJob env jobId result w))
     = Some completed)
  /\ (forall errorCode errorMessage shouldRetry,
     int4_ok (job_retryCount j + 1) = true ->
     job_status <$> getJobById jobId
                      (snd (failJob jobId errorCode errorMessage shouldRetry w))
     = Some failed).
Proof.
  intros Hj. split; [|split].
  - intros status data Hok. rewrite updateJobStatus_eq, Hok.
    unfold getJobById, findFirst in *. simpl.
    by rewrite find_update_rows, Hj.
  - intros env result Hok. rewrite getJobById_completeJob by done.
    by rewrite Hj.
  - intros errorCode errorMessage shouldRetry Hok.
    rewrite failJob_eq, Hj. simpl. rewrite Hok.
    unfold getJobById, findFirst in *.
    destruct shouldRetry; simpl; by rewrite find_update_rows, Hj.
Qed.

(** C5 fails as stated: a completed job is moved back to pending by
    updateJobStatus, a transition the state machine does not have. *)
Lemma completed_job_moved_back_to_pending :
  job_status <$> getJobById "job_abc" world_done = Some completed
  /\ job_status <$> getJobById "job_abc"
                      (snd (updateJobStatus "job_abc" pending None world_done))
     = Some pending
  /\ entered_from pending completed = false.
Proof. vm_compute. done. Qed.

(** C9, as the code has it: each mutation publishes its notification
    once the store has accepted its writes, without looking at how many
    rows the write changed, and publishes nothing when it throws.
    updateJobStatus publishes its status message, and failJob without
    retry its error message, exactly when the store accepts the row
    write; completeJob publishes its completed message exactly when it
    returns, which it does whenever the row write is accepted and the job
    has no owning key.  When no row has the job's id, the store is left
    as it was and the notification is published and handed to the
    subscribers of that id. *)
Theorem notification_without_job_row jobId w :
  (forall status data,
     let r := updateJobStatus jobId status data w in
     let m := {| msg_data := {| data_status := Some status;
                                data_processingTimeMs := data ≫= ud_processingTimeMs;
                                data_jsonResult := None;
                                data_markdownResult := None;
                                data_error := None |};
                 msg_jobId := jobId;
                 msg_type := type_status |} in
     (if jobSet_ok (jobSet_of_update status data)
      then fst r = Ok tt /\ publishLog (snd r) = publishLog w ++ [m]
      else fst r = Thrown IntegerOutOfRange /\ snd r = w)
     /\ (getJobById jobId w = None ->
         jobSet_ok (jobSet_of_update status data) = true ->
         notified_without_write m w r))
  /\ (forall env result,
     let r := completeJob env jobId result w in
     let m := {| msg_data := {| data_status := Some completed;
                                data_processingTimeMs := Some (processingTimeMs result);
                                data_jsonResult := jsonResult result;
                                data_markdownResult := Some (markdownResult result);
                                data_error := None |};
                 msg_jobId := jobId;
                 msg_type := type_completed |} in
     match fst r with
     | Ok _ => publishLog (snd r) = publishLog w ++ [m]
     | Thrown _ => publishLog (snd r) = publishLog w /\ conns (snd r) = conns w
     end
     /\ (jobSet_ok (jobSet_of_result (clock env) result) = true ->
         truthy (getJobById jobId w ≫= job_apiKeyId) = false ->
         fst r = Ok tt)
     /\ (getJobById jobId w = None ->
         jobSet_ok (jobSet_of_result (clock env) result) = true ->
         notified_without_write m w r))
  /\ (forall errorCode errorMessage,
     let r := failJob jobId errorCode errorMessage false w in
     let m := {| msg_data := {| data_status := Some failed;
                                data_processingTimeMs := None;
                                data_jsonResult := None;
                                data_markdownResult := None;
                                data_error := Some errorMessage |};
                 msg_jobId := jobId;
                 msg_type := type_error |} in
     (if int4_ok (default 0 (job_retryCount <$> getJobById jobId w) + 1)
      then fst r = Ok tt /\ publishLog (snd r) = publishLog w ++ [m]
      else fst r = Thrown IntegerOutOfRange /\ snd r = w)
     /\ (getJobById jobId w = None -> notified_without_write m w r)).
Proof.
  assert (Hrows : getJobById jobId w = None ->
                  forall u, with_db (with_jobs (update_rows jobId u (jobs (db w)))
                                       (db w)) w = w).
  { intros Hnone u. rewrite update_rows_absent by apply Hnone.
    by rewrite with_jobs_same, with_db_same. }
  split; [|split].
  - intros status data r m. subst r.
    change m with (status_message jobId status data).
    rewrite updateJobStatus_eq. split.
    + by destruct (jobSet_ok _).
    + intros Hnone Hok. rewrite Hok, (Hrows Hnone).
      by apply publishJobUpdate_notified.
  - intros env result r m. subst r.
    change m with (completed_message jobId result).
    split; [|split].
    + pose proof (completeJob_publishLog env jobId result w) as Hlog.
      simpl in Hlog. rewrite Hlog.
      destruct (fst (completeJob env jobId result w)) eqn:Hr; [done|].
      split; [by rewrite app_nil_r|].
      clear Hlog. revert Hr. rewrite completeJob_eq. simpl.
      destruct (jobSet_ok _); [|done].
      destruct (getJobById jobId w ≫= job_apiKeyId) as [k|]; [|done].
      destruct (bool_decide (k = "")); [done|].
      by destruct (recordUsage _ _ _ _ _ _) as [[[] d2]|e'].
    + intros Hok Hno. rewrite completeJob_eq. simpl. rewrite Hok.
      destruct (getJobById jobId w ≫= job_apiKeyId) as [k|]; [|done].
      simpl in Hno. apply negb_false_iff in Hno. by rewrite Hno.
    + intros Hnone Hok. rewrite completeJob_eq. simpl.
      rewrite Hok, Hnone, (Hrows Hnone). simpl.
      by apply publishJobUpdate_notified.
  - intros errorCode errorMessage r m. subst r.
    change m with (error_message jobId errorMessage).
    rewrite failJob_eq. simpl. split.
    + by destruct (int4_ok _).
    + intros Hnone. rewrite Hnone. simpl. rewrite (Hrows Hnone).
      by apply publishJobUpdate_notified.
Qed.

(** ** The usage ledger *)

Lemma existsb_filter_nil {A} (p : A -> bool) (l : list A) :
  existsb p l = false <-> filter p l = [].
Proof.
  induction l as [|a l IH]; simpl; [done|].
  destruct (p a) eqn:E; simpl.
  - rewrite filter_cons_True by (by rewrite E). done.
  - rewrite filter_cons_False by (rewrite E; auto). done.
Qed.

Lemma filter_snoc {A} (p : A -> bool) (l : list A) (a : A) :
  filter p (l ++ [a]) = filter p l ++ (if p a then [a] else []).
Proof.
  rewrite filter_app. f_equal.
  destruct (p a) eqn:E.
  - rewrite filter_cons_True by (by rewrite E). done.
  - rewrite filter_cons_False by (rewrite E; auto). done.
Qed.

Lemma events_of_nil jobId d :
  events_of jobId d = [] <-> existsb (event_of_job jobId) (usageEvents d) = false.
Proof. unfold events_of. by rewrite existsb_filter_nil. Qed.

(** What [completeJob] does to the ledger, by the job's owning key and by
    whether the job already has its event. *)
Lemma completeJob_ledger env jobId result w :
  let r := completeJob env jobId result w in
  match getJobById jobId w ≫= job_apiKeyId with
  | Some apiKeyId =>
      if bool_decide (apiKeyId = "") then ledger_unchanged w (snd r)
      else if existsb (event_of_job jobId) (usageEvents (db w))
      then ledger_unchanged w (snd r)
      else match fst r with
           | Ok _ => ledger_recorded env apiKeyId jobId result w (snd r)
           | Thrown _ => ledger_unchanged w (snd r)
           end
  | None => ledger_unchanged w (snd r)
  end.
Proof.
  intros r. subst r. rewrite completeJob_eq. simpl.
  destruct (jobSet_ok _).
  2:{ repeat case_match; done. }
  destruct (getJobById jobId w ≫= job_apiKeyId) as [k|]; [|done].
  destruct (bool_decide (k = "")); [done|].
  match goal with |- context [recordUsage ?e ?k ?j ?t ?r ?d] =>
    pose proof (recordUsage_cases e k j t r d) as C;
    destruct (recordUsage e k j t r d) as [[[] d2]|err]
  end; simpl in *.
  - destruct (existsb _ _); subst d2; done.
  - destruct (existsb _ _); done.
Qed.

Lemma completeJob_ledger_dichotomy env jobId result w :
  let r := completeJob env jobId result w in
  ledger_unchanged w (snd r)
  \/ (fst r = Ok tt
      /\ exists apiKeyId,
           getJobById jobId w ≫= job_apiKeyId = Some apiKeyId
           /\ apiKeyId <> ""
           /\ events_of jobId (db w) = []
           /\ ledger_recorded env apiKeyId jobId result w (snd r)).
Proof.
  intros r. pose proof (completeJob_ledger env jobId result w) as C.
  fold r in C. simpl in C.
  destruct (getJobById jobId w ≫= job_apiKeyId) as [k|]; [|by left].
  case_bool_decide as Hk; [by left|].
  destruct (existsb _ _) eqn:E; [by left|].
  destruct (fst r) as [[]|e] eqn:Er; [|by left].
  right. split; [done|]. exists k. by rewrite events_of_nil.
Qed.

(** Once a job has its event, completing it again leaves the ledger
    alone. *)
Lemma completeJob_again env jobId result w :
  events_of jobId (db w) <> [] ->
  ledger_unchanged w (snd (completeJob env jobId result w)).
Proof.
  intros H. destruct (completeJob_ledger_dichotomy env jobId result w)
    as [?|(_ & k & _ & _ & ? & _)]; done.
Qed.

Lemma complete_again_cons jobId env result again w :
  complete_again jobId ((env, result) :: again) w
  = complete_again jobId again (snd (completeJob env jobId result w)).
Proof. reflexivity. Qed.

Lemma complete_again_ledger jobId again w :
  events_of jobId (db w) <> [] ->
  ledger_unchanged w (complete_again jobId again w).
Proof.
  revert w. induction again as [|[env result] again IH]; intros w H.
  - by split.
  - rewrite complete_again_cons.
    destruct (completeJob_again env jobId result w H) as [He Hd].
    destruct (IH (snd (completeJob env jobId result w))) as [He' Hd'].
    + unfold events_of. by rewrite He.
    + unfold ledger_unchanged. split; congruence.
Qed.

Lemma completeJob_owner env jobId result w :
  getJobById jobId (snd (completeJob env jobId result w)) ≫= job_apiKeyId
  = getJobById jobId w ≫= job_apiKeyId.
Proof.
  destruct (jobSet_ok (jobSet_of_result (clock env) result)) eqn:E.
  - rewrite getJobById_completeJob by done. by destruct (getJobById jobId w).
  - rewrite completeJob_eq. simpl. by rewrite E.
Qed.

Lemma complete_again_owner jobId again w :
  getJobById jobId (complete_again jobId again w) ≫= job_apiKeyId
  = getJobById jobId w ≫= job_apiKeyId.
Proof.
  revert w. induction again as [|[env result] again IH]; intros w; [done|].
  by rewrite complete_again_cons, IH, completeJob_owner.
Qed.

(** What a successful completion of a job with an owning key says of its
    arguments: their integers fit the columns. *)
Lemma completeJob_ok_inv env jobId result w apiKeyId :
  getJobById jobId w ≫= job_apiKeyId = Some apiKeyId ->
  apiKeyId <> "" ->
  fst (completeJob env jobId result w) = Ok tt ->
  jobSet_ok (jobSet_of_result (clock env) result) = true
  /\ event_ok (usage_event env apiKeyId jobId result) = true.
Proof.
  intros Hk Hne. rewrite completeJob_eq. simpl.
  destruct (jobSet_ok _); [|done]. rewrite Hk.
  rewrite bool_decide_eq_false_2 by done.
  unfold recordUsage, tx_bind, insert_usageEvent.
  destruct (event_ok _); [done|]. simpl. done.
Qed.

(** The duplicate insert is not an error: completing a job that has its
    event, with arguments the store accepts, returns. *)
Lemma completeJob_duplicate_ok env jobId result w apiKeyId :
  getJobById jobId w ≫= job_apiKeyId = Some apiKeyId ->
  apiKeyId <> "" ->
  events_of jobId (db w) <> [] ->
  jobSet_ok (jobSet_of_result (clock env) result) = true ->
  event_ok (usage_event env apiKeyId jobId result) = true ->
  fst (completeJob env jobId result w) = Ok tt.
Proof.
  intros Hk Hne Hev Hset Hevent. rewrite completeJob_eq. simpl.
  rewrite Hset, Hk. rewrite bool_decide_eq_false_2 by done.
  unfold recordUsage, tx_bind, insert_usageEvent. rewrite Hevent. simpl.
  destruct (existsb (event_of_job jobId) (usageEvents (db w))) eqn:E; [done|].
  by apply events_of_nil in E.
Qed.

Lemma is_daily_daily_add apiKeyId day v r :
  is_daily apiKeyId day (daily_add v r) = is_daily apiKeyId day r.
Proof. reflexivity. Qed.

Lemma is_daily_self v : is_daily (du_apiKeyId v) (du_day v) v = true.
Proof. unfold is_daily. by rewrite !bool_decide_eq_true_2. Qed.

Lemma is_daily_key apiKeyId day v :
  is_daily apiKeyId day v = true -> du_apiKeyId v = apiKeyId /\ du_day v = day.
Proof. unfold is_daily. intros H. by repeat case_bool_decide. Qed.

Lemma filter_daily_bump_other apiKeyId day v rows :
  is_daily apiKeyId day v = false ->
  filter (is_daily apiKeyId day) (daily_bump v rows)
  = filter (is_daily apiKeyId day) rows.
Proof.
  intros Hne. unfold daily_bump.
  induction rows as [|r rows IH]; simpl; [done|].
  destruct (is_daily (du_apiKeyId v) (du_day v) r) eqn:Ev.
  - assert (is_daily apiKeyId day r = false) as Hr.
    { destruct (is_daily apiKeyId day r) eqn:Hr; [|done].
      apply is_daily_key in Hr as [H1 H2]. apply is_daily_key in Ev as [H3 H4].
      unfold is_daily in Hne.
      rewrite !bool_decide_eq_true_2 in Hne by congruence. done. }
    rewrite filter_cons_False by (rewrite is_daily_daily_add, Hr; auto).
    rewrite (filter_cons_False _ r) by (rewrite Hr; auto). done.
  - destruct (is_daily apiKeyId day r) eqn:Hr.
    + rewrite !filter_cons_True by (by rewrite Hr). by rewrite IH.
    + rewrite !filter_cons_False by (rewrite Hr; auto). done.
Qed.

Lemma filter_daily_bump_same v rows :
  filter (is_daily (du_apiKeyId v) (du_day v)) (daily_bump v rows)
  = daily_add v <$> filter (is_daily (du_apiKeyId v) (du_day v)) rows.
Proof.
  unfold daily_bump.
  induction rows as [|r rows IH]; simpl; [done|].
  destruct (is_daily (du_apiKeyId v) (du_day v) r) eqn:Ev.
  - rewrite filter_cons_True by (by rewrite is_daily_daily_add, Ev).
    rewrite (filter_cons_True _ r) by (by rewrite Ev).
    simpl. by rewrite IH.
  - rewrite !filter_cons_False by (rewrite Ev; auto). done.
Qed.

(** The rows of one (API key, day) pair after the upsert of [v]. *)
Lemma filter_daily_rows apiKeyId day v rows :
  filter (is_daily apiKeyId day) (daily_rows v rows)
  = if is_daily apiKeyId day v
    then match filter (is_daily apiKeyId day) rows with
         | [] => [v]
         | hit => daily_add v <$> hit
         end
    else filter (is_daily apiKeyId day) rows.
Proof.
  unfold daily_rows, has_daily.
  destruct (is_daily apiKeyId day v) eqn:Ev.
  - apply is_daily_key in Ev as [<- <-].
    destruct (existsb _ rows) eqn:E.
    + rewrite filter_daily_bump_same.
      destruct (filter _ rows) eqn:F; [|done].
      apply existsb_filter_nil in F. congruence.
    + apply existsb_filter_nil in E as F. rewrite filter_snoc, F, is_daily_self. done.
  - destruct (existsb _ rows).
    + by apply filter_daily_bump_other.
    + rewrite filter_snoc, Ev. by rewrite app_nil_r.
Qed.

Lemma counted_once_daily_add apiKeyId day result r :
  counted_once result r (daily_add (daily_values apiKeyId day result) r).
Proof. by repeat split. Qed.

(** What the code records is what the specification says it records. *)
Lemma ledger_recorded_counts env apiKeyId jobId result w w' :
  ledger_recorded env apiKeyId jobId result w w' ->
  event_recorded env apiKeyId jobId result (db w) (db w')
  /\ aggregate_incremented apiKeyId (isoDate (clock env)) result (db w) (db w').
Proof.
  intros [He Hd]. split.
  - eexists. split; [exact He|]. by repeat split.
  - unfold aggregate_incremented, rows_of. rewrite Hd. split.
    + rewrite filter_daily_rows.
      assert (is_daily apiKeyId (isoDate (clock env))
                (daily_values apiKeyId (isoDate (clock env)) result) = true) as ->
        by apply (is_daily_self (daily_values apiKeyId (isoDate (clock env)) result)).
      destruct (filter _ (apiKeyUsageDaily (db w))) as [|r rows].
      * eexists. split; [done|]. by repeat split.
      * apply Forall2_fmap_r, Forall_Forall2_diag, Forall_forall.
        intros r' _. apply counted_once_daily_add.
    + intros k dy Hne. rewrite filter_daily_rows.
      destruct (is_daily k dy _) eqn:E; [|done].
      apply is_daily_key in E as [E1 E2]. simpl in E1, E2. by subst.
Qed.

Lemma jobSet_ok_pageCount completedAt result :
  jobSet_ok (jobSet_of_result completedAt result) = true ->
  int4_ok (pageCount result) = true.
Proof.
  unfold jobSet_ok. cbn [jobSet_of_result set_pageCount opt_int4_ok]. intros H.
  do 3 (apply andb_true_iff in H as [H _]). exact H.
Qed.

(** The transaction of [completeJob] commits when the store accepts the
    usage. *)
Lemma recordUsage_accepted env apiKeyId jobId result d :
  int4_ok (pageCount result) = true ->
  events_of jobId d = [] ->
  usage_accepted env apiKeyId result d ->
  exists d', recordUsage env apiKeyId jobId (isoDate (clock env)) result d = Ok (tt, d').
Proof.
  intros Hpages Hnone (Hid & Hkey & Hprompt & Hcompletion & Hsums).
  unfold recordUsage, tx_bind, insert_usageEvent.
  assert (event_ok (usage_event env apiKeyId jobId result) = true) as ->.
  { unfold event_ok. simpl. unfold promptTokens_of, completionTokens_of.
    by rewrite Hpages, Hprompt, Hcompletion. }
  apply events_of_nil in Hnone. simpl. rewrite Hnone.
  assert (existsb (fun e' => bool_decide (ue_id e' = createId env id_usageEvent))
            (usageEvents d) = false) as ->.
  { apply not_true_iff_false. intros (e & He & Hx)%existsb_exists.
    apply bool_decide_eq_true_1 in Hx. apply Hid, list_elem_of_fmap.
    exists e. split; [done|]. by apply list_elem_of_In. }
  assert (has_key apiKeyId d = true) as Hhas.
  { apply list_elem_of_fmap in Hkey as (k & -> & Hk).
    apply existsb_exists. exists k. split; [by apply list_elem_of_In|].
    by apply bool_decide_eq_true_2. }
  rewrite Hhas. simpl.
  unfold upsert_apiKeyUsageDaily.
  assert (daily_ok (daily_values apiKeyId (isoDate (clock env)) result) = true) as ->.
  { unfold daily_ok. simpl. unfold promptTokens_of, completionTokens_of.
    by rewrite Hpages, Hprompt, Hcompletion. }
  cbn [negb apiKeyUsageDaily with_usageEvents]. destruct (has_daily _ _).
  - rewrite filter_daily_bump_same.
    cbn [daily_values du_apiKeyId du_day].
    assert (forallb daily_ok
              (daily_add (daily_values apiKeyId (isoDate (clock env)) result)
                 <$> filter (is_daily apiKeyId (isoDate (clock env)))
                       (apiKeyUsageDaily d)) = true) as Hall.
    { apply forallb_forall. intros r' Hr'.
      apply list_elem_of_In, list_elem_of_fmap in Hr' as (r & -> & Hr).
      rewrite Forall_forall in Hsums.
      destruct (Hsums r Hr) as (H1 & H2 & H3 & H4).
      unfold daily_ok. simpl. unfold promptTokens_of, completionTokens_of.
      by rewrite H1, H2, H3, H4. }
    rewrite Hall. by eexists.
  - unfold has_key in *. cbn [daily_values du_apiKeyId apiKeys with_usageEvents].
    rewrite Hhas. by eexists.
Qed.

(** C1: completing a job with an owning API key any number of times
    leaves exactly one usage event for it.  The call that succeeds
    inserts the event and increments the aggregate of (apiKeyId, today)
    by the job's counts (its pages, one job, its tokens) if and only if
    the job had no event yet; every further call with that jobId,
    whatever its arguments and outcome, is ignored by the ledger: the
    events and the aggregates stay as they are.  The duplicate insert is
    no error: the same call, repeated at any later time, returns. *)
Theorem completeJob_idempotent_accounting env jobId result w j apiKeyId again :
  getJobById jobId w = Some j ->
  job_apiKeyId j = Some apiKeyId ->
  apiKeyId <> "" ->
  (length (events_of jobId (db w)) <= 1)%nat ->
  fst (completeJob env jobId result w) = Ok tt ->
  let w1 := snd (completeJob env jobId result w) in
  let w2 := complete_again jobId again w1 in
  match events_of jobId (db w) with
  | [] => event_recorded env apiKeyId jobId result (db w) (db w1)
          /\ aggregate_incremented apiKeyId (isoDate (clock env)) result (db w) (db w1)
  | _ :: _ => ledger_unchanged w w1
  end
  /\ length (events_of jobId (db w1)) = 1%nat
  /\ ledger_unchanged w1 w2
  /\ length (events_of jobId (db w2)) = 1%nat
  /\ forall env', wall_clock env' -> fst (completeJob env' jobId result w2) = Ok tt.
Proof.
  intros Hj Hk Hne Huniq Hok w1 w2.
  assert (Hown : getJobById jobId w ≫= job_apiKeyId = Some apiKeyId)
    by (by rewrite Hj).
  pose proof (completeJob_ledger env jobId result w) as C. simpl in C.
  rewrite Hown, Hok in C.
  rewrite bool_decide_eq_false_2 in C by done. fold w1 in C.
  assert (H1 : match events_of jobId (db w) with
               | [] => ledger_recorded env apiKeyId jobId result w w1
               | _ :: _ => ledger_unchanged w w1
               end /\ length (events_of jobId (db w1)) = 1%nat).
  { destruct (existsb _ _) eqn:E.
    - destruct (events_of jobId (db w)) as [|e es] eqn:Ee.
      + apply events_of_nil in Ee. congruence.
      + split; [done|]. destruct C as [C _].
        unfold events_of in *. rewrite C, Ee. simpl in *. lia.
    - apply events_of_nil in E as Ee. rewrite Ee. split; [done|].
      destruct C as [C _]. unfold events_of in *. rewrite C, filter_snoc, Ee.
      unfold event_of_job at 1. simpl.
      by rewrite bool_decide_eq_true_2. }
  destruct H1 as [H1 Hlen]. split.
  { destruct (events_of jobId (db w)); [|done].
    by apply ledger_recorded_counts. }
  split; [done|].
  assert (Hnn : events_of jobId (db w1) <> []).
  { intros Hnil. by rewrite Hnil in Hlen. }
  pose proof (complete_again_ledger jobId again w1 Hnn) as Hu.
  fold w2 in Hu. split; [done|].
  assert (Hlen2 : length (events_of jobId (db w2)) = 1%nat).
  { destruct Hu as [Hu _]. unfold events_of in *. by rewrite Hu. }
  split; [done|]. intros env' _.
  destruct (completeJob_ok_inv env jobId result w apiKeyId Hown Hne Hok)
    as [Hset Hevent].
  apply (completeJob_duplicate_ok env' jobId result w2 apiKeyId); try done.
  - unfold w2, w1. by rewrite complete_again_owner, completeJob_owner.
  - intros Hnil. by rewrite Hnil in Hlen2.
Qed.

(** C3, as the code has it: completeJob commits in two units.  The job
    row write is the first: once the store accepts it, it stays whatever
    follows (and if the store refuses it, nothing at all has happened).
    The ledger is the second, and is entered exactly when the job has a
    truthy owning key.  Without one the ledger is left as it is and the
    call returns.  With one, the event and the aggregate go together:
    when the call returns and the job had no event, the event is
    recorded and the aggregate of its day is incremented by the job's
    counts; in every other case (the job has its event, or the
    transaction fails and the call throws) neither table has changed;
    and the call does return whenever the store accepts the usage. *)
Theorem completeJob_durability_units env jobId result w :
  let u := jobSet_of_result (clock env) result in
  let r := completeJob env jobId result w in
  let owner := getJobById jobId w ≫= job_apiKeyId in
  (jobSet_ok u = true -> jobs (db (snd r)) = update_rows jobId u (jobs (db w)))
  /\ (jobSet_ok u = false -> r = (Thrown IntegerOutOfRange, w))
  /\ (truthy owner = false ->
      ledger_unchanged w (snd r) /\ (jobSet_ok u = true -> fst r = Ok tt))
  /\ (forall apiKeyId,
      owner = Some apiKeyId -> apiKeyId <> "" -> jobSet_ok u = true ->
      match fst r, events_of jobId (db w) with
      | Ok _, [] =>
          event_recorded env apiKeyId jobId result (db w) (db (snd r))
          /\ aggregate_incremented apiKeyId (isoDate (clock env)) result
               (db w) (db (snd r))
      | _, _ => ledger_unchanged w (snd r)
      end
      /\ (events_of jobId (db w) = [] ->
          usage_accepted env apiKeyId result (db w) ->
          fst r = Ok tt)).
Proof.
  intros u r owner. split; [|split; [|split]].
  - intros Hok. by apply completeJob_jobs.
  - intros Hno. subst r. rewrite completeJob_eq. simpl. fold u. by rewrite Hno.
  - intros Hno. subst r owner. rewrite completeJob_eq. simpl. fold u.
    destruct (jobSet_ok u); [|by split].
    destruct (getJobById jobId w ≫= job_apiKeyId) as [k|]; [|by split].
    simpl in Hno. apply negb_false_iff in Hno. rewrite Hno. by split.
  - intros apiKeyId Hown Hne Hok. subst owner. split.
    + pose proof (completeJob_ledger env jobId result w) as C. simpl in C.
      fold r in C. rewrite Hown in C.
      rewrite bool_decide_eq_false_2 in C by done.
      destruct (existsb _ _) eqn:E.
      * destruct (events_of jobId (db w)) as [|e es] eqn:Ee.
        { apply events_of_nil in Ee. congruence. }
        by destruct (fst r).
      * apply events_of_nil in E. rewrite E.
        destruct (fst r); [|done]. by apply ledger_recorded_counts.
    + intros Hnone Hacc. subst r. rewrite completeJob_eq. cbv zeta. fold u.
      rewrite Hok, Hown. rewrite bool_decide_eq_false_2 by done.
      destruct (recordUsage_accepted env apiKeyId jobId result
                  (db (with_db (with_jobs (update_rows jobId u (jobs (db w)))
                                  (db w)) w)))
        as [d' Hd']; [by eapply jobSet_ok_pageCount|exact Hnone|exact Hacc|].
      by rewrite Hd'.
Qed.

(** C10: the day of the aggregate is the UTC date of the instant
    completeJob read from the application's clock on entry, the one it
    writes as completedAt; the database's clock only stamps the event.
    When a first completion of a job with an owning key returns, the job's
    completedAt is that instant, the aggregate row of
    (apiKeyId, isoDate instant) exists and is the only one the call
    touched, and the new event carries the database's time. *)
Theorem completeJob_day_is_utc_date_of_completedAt env jobId result w j apiKeyId :
  getJobById jobId w = Some j ->
  job_apiKeyId j = Some apiKeyId ->
  apiKeyId <> "" ->
  events_of jobId (db w) = [] ->
  let r := completeJob env jobId result w in
  fst r = Ok tt ->
  let today := isoDate (clock env) in
  job_completedAt <$> getJobById jobId (snd r) = Some (Some (clock env))
  /\ apiKeyUsageDaily (db (snd r))
     = daily_rows (daily_values apiKeyId today result) (apiKeyUsageDaily (db w))
  /\ rows_of apiKeyId today (db (snd r)) <> []
  /\ (forall k day, ~ (k = apiKeyId /\ day = today) ->
        rows_of k day (db (snd r)) = rows_of k day (db w))
  /\ ue_createdAt <$> last (usageEvents (db (snd r))) = Some (db_now env).
Proof.
  intros Hj Hk Hne Hev r Hok today.
  pose proof (completeJob_ledger env jobId result w) as C. simpl in C.
  fold r in C. rewrite Hj in C. simpl in C. rewrite Hk, Hok in C.
  rewrite bool_decide_eq_false_2 in C by done.
  apply events_of_nil in Hev. rewrite Hev in C. destruct C as [Ce Cd].
  fold today in Cd.
  assert (Hset : jobSet_ok (jobSet_of_result (clock env) result) = true).
  { destruct (jobSet_ok _) eqn:E; [done|]. subst r.
    rewrite completeJob_eq in Hok. simpl in Hok. by rewrite E in Hok. }
  split; [|split; [done|split; [|split]]].
  - subst r. rewrite getJobById_completeJob by done. by rewrite Hj.
  - unfold rows_of. rewrite Cd, filter_daily_rows.
    replace (is_daily apiKeyId today _) with true
      by (symmetry; apply (is_daily_self (daily_values apiKeyId today result))).
    destruct (filter _ _); done.
  - intros k day Hother. unfold rows_of. rewrite Cd, filter_daily_rows.
    destruct (is_daily k day _) eqn:E; [|done].
    apply is_daily_key in E as [E1 E2]. simpl in E1, E2. by destruct Hother.
  - rewrite Ce, last_snoc. done.
Qed.

(** ** Aggregate consistency *)

Lemma sumZ_app l1 l2 : sumZ (l1 ++ l2) = sumZ l1 + sumZ l2.
Proof.
  unfold sumZ. induction l1 as [|z l1 IH]; cbn [foldr app]; [done|].
  rewrite IH. lia.
Qed.

Lemma aggregate_consistent_ext d d' :
  usageEvents d' = usageEvents d ->
  apiKeyUsageDaily d' = apiKeyUsageDaily d ->
  aggregate_consistent d -> aggregate_consistent d'.
Proof.
  intros He Hd H k day. specialize (H k day).
  unfold rows_of, events_on in *. by rewrite He, Hd.
Qed.

Lemma aggregate_consistent_empty d :
  usageEvents d = [] -> apiKeyUsageDaily d = [] -> aggregate_consistent d.
Proof. intros He Hd k day. unfold rows_of, events_on. by rewrite He, Hd. Qed.

Lemma sums_up_first apiKeyId today env jobId result :
  sums_up (daily_values apiKeyId today result)
    [usage_event env apiKeyId jobId result].
Proof. unfold sums_up, sumZ. simpl. repeat split; lia. Qed.

Lemma sums_up_next v r es e :
  du_pages v = ue_pages e ->
  du_promptTokens v = ue_promptTokens e ->
  du_completionTokens v = ue_completionTokens e ->
  sums_up r es -> sums_up (daily_add v r) (es ++ [e]).
Proof.
  unfold sums_up. intros Hp Hq Hc (H1 & H2 & H3 & H4).
  cbn [daily_add du_pages du_jobsCount du_promptTokens du_completionTokens].
  rewrite !fmap_app, !sumZ_app, length_app, Nat2Z.inj_add.
  unfold sumZ in *. cbn [fmap list_fmap foldr length].
  repeat split; lia.
Qed.

(** Recording the usage of a job keeps the aggregates equal to the sums
    of the events, when the event is created on the day it is counted
    under. *)
Lemma aggregate_consistent_recorded env apiKeyId jobId result w w' :
  isoDate (db_now env) = isoDate (clock env) ->
  ledger_recorded env apiKeyId jobId result w w' ->
  aggregate_consistent (db w) -> aggregate_consistent (db w').
Proof.
  intros Hday [Ce Cd] H k day. specialize (H k day).
  unfold rows_of, events_on in *.
  rewrite Cd, Ce, filter_daily_rows, filter_snoc.
  set (v := daily_values apiKeyId (isoDate (clock env)) result) in *.
  set (e := usage_event env apiKeyId jobId result) in *.
  assert (event_on k day e = is_daily k day v) as ->.
  { unfold event_on, is_daily. simpl. by rewrite Hday. }
  destruct (is_daily k day v) eqn:Ev.
  - destruct (filter (is_daily k day) _) as [|r [|r' rest]]; [| |done].
    + rewrite H. simpl. apply sums_up_first.
    + simpl. by apply sums_up_next.
  - by rewrite app_nil_r.
Qed.

Lemma updateJobStatus_ledger jobId status data w :
  ledger_unchanged w (snd (updateJobStatus jobId status data w)).
Proof. rewrite updateJobStatus_eq. by destruct (jobSet_ok _). Qed.

Lemma failJob_ledger jobId errorCode errorMessage shouldRetry w :
  ledger_unchanged w (snd (failJob jobId errorCode errorMessage shouldRetry w)).
Proof.
  rewrite failJob_eq. simpl. destruct (int4_ok _); [|done].
  by destruct shouldRetry.
Qed.

Lemma aggregate_consistent_call c w :
  same_day c ->
  aggregate_consistent (db w) -> aggregate_consistent (db (snd (call c w))).
Proof.
  intros Hday H. destruct c as [jobId status data|env jobId result|jobId ec em sr];
    simpl in *.
  - destruct (updateJobStatus_ledger jobId status data w).
    by eapply aggregate_consistent_ext.
  - destruct (completeJob_ledger_dichotomy env jobId result w)
      as [[He Hd]|(_ & k & _ & _ & _ & Hrec)].
    + by eapply aggregate_consistent_ext.
    + by eapply aggregate_consistent_recorded.
  - destruct (failJob_ledger jobId ec em sr w).
    by eapply aggregate_consistent_ext.
Qed.

(** C2, as the code has it: after any sequence of job store calls on a
    consistent store, every (apiKeyId, day) pair has at most one
    aggregate row, and its pages, jobsCount, promptTokens and
    completionTokens are the sums over the usage events of that key
    created on that day, provided that for each completion the instant
    read by completeJob and the database's creation time of the event
    fall on the same UTC date. *)
Theorem aggregate_consistent_run calls w :
  Forall same_day calls ->
  aggregate_consistent (db w) ->
  aggregate_consistent (db (run calls w)).
Proof.
  intros Hdays. revert w. induction Hdays as [|c calls Hc _ IH]; intros w H.
  - done.
  - unfold run. simpl. apply IH. by apply aggregate_consistent_call.
Qed.

(** C2 fails as stated: completeJob reads 23:59:59.999 of 2023-11-14 and
    the event is created two milliseconds later.  The aggregate of
    (ak_1, 2023-11-14) then counts two pages and one job, and no event of
    ak_1 was created on that day. *)
Lemma aggregate_differs_across_midnight :
  let w := run [CallCompleteJob env_midnight "job_abc" result_hi] world0 in
  aggregate_consistent (db world0)
  /\ (du_pages <$> rows_of "ak_1" "2023-11-14" (db w)) = [2]
  /\ events_on "ak_1" "2023-11-14" (db w) = []
  /\ length (events_on "ak_1" "2023-11-15" (db w)) = 1%nat
  /\ ~ aggregate_consistent (db w).
Proof.
  split; [by apply aggregate_consistent_empty|].
  split; [by vm_compute|]. split; [by vm_compute|]. split; [by vm_compute|].
  intros H. specialize (H "ak_1" "2023-11-14").
  vm_compute in H. destruct H as [H _]. done.
Qed.

(** The store of the example for C3 is a consistent one. *)
Lemma world_full_consistent : aggregate_consistent (db world_full).
Proof.
  intros apiKeyId day. unfold rows_of, events_on.
  change (apiKeyUsageDaily (db world_full)) with [usage_full].
  change (usageEvents (db world_full)) with [event_big "1"; event_big "2"].
  destruct (decide (apiKeyId = "ak_1" /\ day = "2023-11-14")) as [[-> ->]|Hne].
  - by vm_compute.
  - assert (is_daily apiKeyId day usage_full = false) as Hrow.
    { unfold is_daily, usage_full. cbn [du_apiKeyId du_day].
      apply andb_false_iff.
      destruct (decide ("ak_1" = apiKeyId)) as [<-|Hk].
      - right. apply bool_decide_eq_false_2. intros <-. by apply Hne.
      - left. by apply bool_decide_eq_false_2. }
    assert (forall n, event_on apiKeyId day (event_big n) = false) as Hev.
    { intros n. unfold event_on, event_big. cbn [ue_apiKeyId ue_createdAt].
      change (isoDate 1699990000000) with "2023-11-14".
      apply andb_false_iff.
      destruct (decide ("ak_1" = apiKeyId)) as [<-|Hk].
      - right. apply bool_decide_eq_false_2. intros <-. by apply Hne.
      - left. by apply bool_decide_eq_false_2. }
    rewrite filter_cons_False by (rewrite Hrow; auto).
    rewrite !filter_cons_False by (rewrite Hev; auto).
    done.
Qed.

(** C3 fails as stated: on a day on which the key's aggregate is eight
    prompt tokens short of the largest integer, completing job_abc
    (thirty prompt tokens) throws in the ledger transaction; the job row
    is completed all the same, and has neither a usage event nor a share
    in the aggregate. *)
Lemma job_completed_without_usage :
  let r := completeJob env_noon "job_abc" result_hi world_full in
  aggregate_consistent (db world_full)
  /\ getJobById "job_abc" world_full ≫= job_apiKeyId = Some "ak_1"
  /\ fst r = Thrown IntegerOutOfRange
  /\ job_status <$> getJobById "job_abc" (snd r) = Some completed
  /\ job_completedAt <$> getJobById "job_abc" (snd r) = Some (Some 1700000000000)
  /\ events_of "job_abc" (db (snd r)) = []
  /\ apiKeyUsageDaily (db (snd r)) = apiKeyUsageDaily (db world_full).
Proof. split; [apply world_full_consistent|]. vm_compute. done. Qed.

(** C9 fails as stated: completeJob does not always publish once it has
    attempted its write.  Connection 7 is subscribed to job_abc; the job
    row is written completed, the ledger transaction then fails, and
    completeJob throws before it publishes: nothing is published and the
    subscriber is sent nothing beyond the status frame of its [open]. *)
Lemma completed_job_without_notification :
  let r := completeJob env_noon "job_abc" result_hi world_full_watched in
  subscribers "job_abc" (bus world_full_watched) = {[7%nat]}
  /\ job_status <$> getJobById "job_abc" world_full_watched = Some processing
  /\ fst r = Thrown IntegerOutOfRange
  /\ job_status <$> getJobById "job_abc" (snd r) = Some completed
  /\ publishLog (snd r) = []
  /\ sent <$> conns (snd r) !! 7%nat
     = Some [FrameUpdate (jobsWebSocket.current_status "job_abc" job_abc)].
Proof. by vm_compute. Qed.

(** ** The gateway *)

Section Gateway.

Context (sha256_hex : string -> string).
Context (getSession : option string -> option Session).
Context (isPing : string -> bool).

Local Abbreviation open_identity := (jobsWebSocket.open_identity sha256_hex getSession).
Local Abbreviation open := (jobsWebSocket.open sha256_hex getSession).
Local Abbreviation open_begin := jobsWebSocket.open_begin.
Local Abbreviation open_job := jobsWebSocket.open_job.
Local Abbreviation close := jobsWebSocket.close.

(** Without [updateUsage], [validateApiKey] only reads. *)
Lemma validateApiKey_readonly env authHeader w :
  exists r, validateApiKey sha256_hex env authHeader false w = (Ok r, w).
Proof.
  unfold validateApiKey, bind, query, ret.
  repeat (case_match; simpl; eauto).
Qed.

Lemma on_conn_lookup f c w c' :
  conns (on_conn f c w) !! c'
  = if decide (c = c') then f <$> conns w !! c else conns w !! c'.
Proof. unfold on_conn. simpl. apply lookup_alter. Qed.

Lemma reject_lookup error c w cn :
  conns w !! c = Some cn ->
  conns (reject error c w) !! c
  = Some (set_phase Returned (set_closeCalled (push_frame (FrameError error) cn))).
Proof.
  intros H. unfold reject. rewrite !on_conn_lookup, !decide_True by done.
  by rewrite H.
Qed.

(** [open] between its first and its second [await]: the caller is
    resolved to a user and an organization, or turned away. *)
Lemma open_identity_cases env c hdrs jobId w :
  let w0 := open_begin c hdrs jobId w in
  (exists user org, open_identity env c w0
                    = on_conn (set_phase (AwaitJob jobId user org)) c w0)
  \/ open_identity env c w0 = reject "Unauthorized" c w0.
Proof.
  intros w0. unfold jobsWebSocket.open_identity.
  replace (phase <$> conns w0 !! c) with (Some (AwaitIdentity hdrs jobId))
    by (unfold w0, jobsWebSocket.open_begin; simpl; by rewrite lookup_insert_eq).
  destruct (validateApiKey_readonly env (authorization hdrs) w0) as [r ->].
  destruct r as [info|]; [by eauto|].
  destruct (getSession _) as [s|]; [|by right].
  destruct (session_user s) as [user|]; [|by right].
  destruct (activeOrganizationId s) as [org|]; [|by right].
  case_bool_decide; [by right|by eauto].
Qed.

(** The last part of [open] on a job the organization has no row for. *)
Lemma open_job_unmatched c jobId userId organizationId w cn :
  conns w !! c = Some cn ->
  phase cn = AwaitJob jobId userId organizationId ->
  findFirst (jobsWebSocket.job_in_org jobId organizationId) (db w) = None ->
  open_job c w = reject "Job not found" c w.
Proof.
  intros Hc Hp Hnone. unfold jobsWebSocket.open_job.
  by rewrite Hc; simpl; rewrite Hp, Hnone.
Qed.

Lemma find_job_in_org_none jobId organizationId d :
  (forall j, j ∈ jobs d -> job_id j = jobId -> job_organizationId j <> organizationId) ->
  findFirst (jobsWebSocket.job_in_org jobId organizationId) d = None.
Proof.
  intros H. unfold findFirst.
  destruct (find _ (jobs d)) as [j|] eqn:E; [|done].
  apply find_some in E as [Hin Hj]. apply list_elem_of_In in Hin.
  unfold jobsWebSocket.job_in_org, is_job in Hj.
  apply andb_true_iff in Hj as [H1 H2].
  apply bool_decide_eq_true_1 in H1, H2. by destruct (H j).
Qed.

Lemma open_unmatched env c hdrs jobId userId organizationId w :
  phase <$> conns (open_identity env c (open_begin c hdrs jobId w)) !! c
    = Some (AwaitJob jobId userId organizationId) ->
  (forall j, j ∈ jobs (db w) -> job_id j = jobId ->
             job_organizationId j <> organizationId) ->
  let w' := open env c hdrs jobId w in
  conns w' !! c = Some (conn_rejected "Job not found")
  /\ bus w' = bus w /\ db w' = db w.
Proof.
  intros Hauth Hnone w'. subst w'. unfold jobsWebSocket.open.
  set (w0 := open_begin c hdrs jobId w) in *.
  assert (H0 : conns w0 !! c = Some (conn_new hdrs jobId))
    by (unfold w0, jobsWebSocket.open_begin; simpl; by rewrite lookup_insert_eq).
  destruct (open_identity_cases env c hdrs jobId w) as [(user & org & E)|E];
    fold w0 in E; rewrite E in *.
  - rewrite on_conn_lookup, decide_True, H0 in Hauth by done.
    simpl in Hauth. injection Hauth as -> ->.
    erewrite open_job_unmatched.
    + split; [|done].
      rewrite (reject_lookup _ _ _
                 (set_phase (AwaitJob jobId userId organizationId)
                    (conn_new hdrs jobId)));
        [done|].
      by rewrite on_conn_lookup, decide_True, H0.
    + by rewrite on_conn_lookup, decide_True, H0.
    + done.
    + by apply find_job_in_org_none.
  - erewrite reject_lookup in Hauth by done. done.
Qed.

(** C7: the gateway authorizes by one row lookup on the job's id and the
    caller's organization.  A caller resolved to an organization that has
    no row with the requested id is sent the one message "Job not found",
    its connection is closed, and neither the bus nor the store changes;
    what the peer sees is the same whether the job does not exist at
    all (world [w1]) or exists in other organizations only (world
    [w2]). *)
Theorem open_rejects_unmatched_job env c hdrs jobId userId organizationId w1 w2 :
  phase <$> conns (open_identity env c (open_begin c hdrs jobId w1)) !! c
    = Some (AwaitJob jobId userId organizationId) ->
  phase <$> conns (open_identity env c (open_begin c hdrs jobId w2)) !! c
    = Some (AwaitJob jobId userId organizationId) ->
  getJobById jobId w1 = None ->
  (forall j, j ∈ jobs (db w2) -> job_id j = jobId ->
             job_organizationId j <> organizationId) ->
  let w1' := open env c hdrs jobId w1 in
  let w2' := open env c hdrs jobId w2 in
  conns w1' !! c = Some (conn_rejected "Job not found")
  /\ conns w2' !! c = conns w1' !! c
  /\ bus w1' = bus w1 /\ bus w2' = bus w2
  /\ db w1' = db w1 /\ db w2' = db w2.
Proof.
  intros Ha1 Ha2 Hnone Hother w1' w2'.
  destruct (open_unmatched env c hdrs jobId userId organizationId w1 Ha1)
    as (C1 & B1 & D1).
  { intros j Hin Hid. unfold getJobById, findFirst in Hnone.
    apply list_elem_of_In in Hin.
    eapply find_none in Hnone; [|done].
    unfold is_job in Hnone. by rewrite bool_decide_eq_true_2 in Hnone. }
  destruct (open_unmatched env c hdrs jobId userId organizationId w2 Ha2 Hother)
    as (C2 & B2 & D2).
  subst w1' w2'. by rewrite C1, C2.
Qed.

End Gateway.

(** ** Subscriptions and connections *)

Lemma subscribers_subscribeToJob jobId c w j :
  subscribers j (bus (subscribeToJob jobId c w))
  = if decide (jobId = j) then {[c]} ∪ subscribers j (bus w)
    else subscribers j (bus w).
Proof.
  unfold subscribeToJob, subscribers. simpl. rewrite lookup_insert.
  by destruct (decide (jobId = j)) as [->|].
Qed.

Lemma subscribers_unsubscribeFromJob jobId c w j :
  subscribers j (bus (unsubscribeFromJob jobId c w))
  = if decide (jobId = j) then subscribers j (bus w) ∖ {[c]}
    else subscribers j (bus w).
Proof.
  unfold unsubscribeFromJob, subscribers. simpl. rewrite lookup_alter.
  destruct (decide (jobId = j)) as [->|]; [|done].
  destruct (bus w !! j); simpl; [done|]. by rewrite empty_difference_L.
Qed.

Lemma kept_refl w c : kept w w c.
Proof. by split. Qed.

Lemma kept_trans w1 w2 w3 c : kept w1 w2 c -> kept w2 w3 c -> kept w1 w3 c.
Proof. intros [? ?] [? ?]. split; congruence. Qed.

Lemma kept_on_conn f c w k :
  (forall cn, wsData (f cn) = wsData cn /\ phase (f cn) = phase cn) ->
  kept w (on_conn f c w) k.
Proof.
  intros Hf. unfold kept. rewrite on_conn_lookup.
  destruct (decide (c = k)) as [->|]; [|done].
  destruct (conns w !! k) as [cn|]; simpl; [|done].
  destruct (Hf cn) as [-> ->]. done.
Qed.

Lemma kept_on_conn_other f c w k : k <> c -> kept w (on_conn f c w) k.
Proof.
  intros Hne. unfold kept. rewrite on_conn_lookup.
  by rewrite decide_False by done.
Qed.

Lemma kept_publish jobId m w k : kept w (snd (publishJobUpdate jobId m w)) k.
Proof.
  unfold kept. rewrite publishJobUpdate_delivers.
  destruct (decide _); [|done]. by destruct (conns w !! k).
Qed.

Lemma bus_tracks_wsData_mono w w' :
  bus_tracks_wsData w ->
  (forall jobId c, c ∈ subscribers jobId (bus w') ->
     c ∈ subscribers jobId (bus w) /\ kept w w' c) ->
  bus_tracks_wsData w'.
Proof.
  intros Hinv Hsub jobId c Hc.
  destruct (Hsub jobId c Hc) as [Hc' [Hd Hp]].
  destruct (Hinv jobId c Hc') as (cn & d & Hcn & Hph & Hws & Hj & Hcb).
  rewrite Hcn in Hd, Hp. simpl in Hd, Hp.
  destruct (conns w' !! c) as [cn'|]; [|done].
  simpl in Hd, Hp. exists cn', d. repeat split; congruence.
Qed.

(** A connection whose [open] has not returned has no subscription. *)
Lemma unopened_not_subscribed w c :
  bus_tracks_wsData w ->
  phase <$> conns w !! c <> Some Returned ->
  forall jobId, c ∉ subscribers jobId (bus w).
Proof.
  intros Hinv Hp jobId Hc.
  destruct (Hinv jobId c Hc) as (cn & d & Hcn & Hph & _).
  rewrite Hcn in Hp. simpl in Hp. congruence.
Qed.

Lemma bus_tracks_wsData_frame w w' c :
  bus_tracks_wsData w ->
  phase <$> conns w !! c <> Some Returned ->
  bus w' = bus w ->
  (forall k, k <> c -> kept w w' k) ->
  bus_tracks_wsData w'.
Proof.
  intros Hinv Hp Hbus Hkeep. apply (bus_tracks_wsData_mono w); [done|].
  intros jobId k Hk. rewrite Hbus in Hk. split; [done|].
  apply Hkeep. intros ->. by eapply unopened_not_subscribed.
Qed.

Lemma kept_reject error c w k : k <> c -> kept w (reject error c w) k.
Proof.
  intros Hne. unfold reject.
  eapply kept_trans; [|by apply kept_on_conn_other].
  eapply kept_trans; [|by apply kept_on_conn_other].
  by apply kept_on_conn_other.
Qed.

(** What a job store call leaves of a world: the bus, and of each
    connection everything but the frames it was sent. *)
Lemma call_keeps c w :
  bus (snd (call c w)) = bus w /\ forall k, kept w (snd (call c w)) k.
Proof.
  destruct c as [jobId status data|env jobId result|jobId ec em sr]; simpl.
  - rewrite updateJobStatus_eq. destruct (jobSet_ok _); [|by split].
    split; [done|]. intros k.
    apply (kept_publish jobId _ (with_db _ w) k).
  - rewrite completeJob_eq. simpl. destruct (jobSet_ok _); [|by split].
    destruct (getJobById jobId w ≫= job_apiKeyId) as [key|].
    + destruct (bool_decide (key = "")).
      * split; [done|]. intros k. apply (kept_publish jobId _ (with_db _ w) k).
      * destruct (recordUsage _ _ _ _ _ _) as [[[] d2]|e]; [|by split].
        split; [done|]. intros k.
        apply (kept_publish jobId _ (with_db d2 (with_db _ w)) k).
    + split; [done|]. intros k. apply (kept_publish jobId _ (with_db _ w) k).
  - rewrite failJob_eq. simpl. destruct (int4_ok _); [|by split].
    destruct sr; [by split|].
    split; [done|]. intros k. apply (kept_publish jobId _ (with_db _ w) k).
Qed.

Section Invariant.

Context (sha256_hex : string -> string).
Context (getSession : option string -> option Session).
Context (isPing : string -> bool).

Lemma open_identity_keeps env c w :
  let w' := jobsWebSocket.open_identity sha256_hex getSession env c w in
  w' = w
  \/ (phase <$> conns w !! c <> Some Returned
      /\ bus w' = bus w /\ forall k, k <> c -> kept w w' k).
Proof.
  intros w'. subst w'. unfold jobsWebSocket.open_identity.
  destruct (conns w !! c) as [cn|] eqn:Hc; simpl; [|by left].
  destruct (phase cn) as [hdrs jobId| |] eqn:Hp; try by left.
  right. split; [done|].
  destruct (validateApiKey_readonly sha256_hex env (authorization hdrs) w) as [r ->].
  assert (forall error, bus (reject error c w) = bus w
                        /\ forall k, k <> c -> kept w (reject error c w) k) as Hrej.
  { intros error. split; [done|]. intros k Hk. by apply kept_reject. }
  destruct r as [info|].
  { split; [done|]. intros k Hk. by apply kept_on_conn_other. }
  destruct (getSession _) as [s|]; [|apply Hrej].
  destruct (session_user s) as [user|]; [|apply Hrej].
  destruct (activeOrganizationId s) as [org|]; [|apply Hrej].
  case_bool_decide; [apply Hrej|].
  split; [done|]. intros k Hk. by apply kept_on_conn_other.
Qed.

Lemma bus_tracks_wsData_open_job c w :
  bus_tracks_wsData w -> bus_tracks_wsData (jobsWebSocket.open_job c w).
Proof.
  intros Hinv. unfold jobsWebSocket.open_job.
  destruct (conns w !! c) as [cn|] eqn:Hc; simpl; [|done].
  destruct (phase cn) as [|jobId userId organizationId|] eqn:Hp; try done.
  assert (Hun : phase <$> conns w !! c <> Some Returned)
    by (by rewrite Hc; simpl; rewrite Hp).
  destruct (findFirst _ _) as [j|].
  2:{ eapply bus_tracks_wsData_frame; [done|done|done|].
      intros k Hk. by apply kept_reject. }
  set (d := {| wsd_callback := c; wsd_jobId := jobId;
               wsd_organizationId := organizationId; wsd_userId := userId |}).
  intros j' c' Hsub. simpl in Hsub.
  change (c' ∈ subscribers j' (bus (subscribeToJob jobId c
                                     (on_conn (set_wsData d) c w)))) in Hsub.
  rewrite subscribers_subscribeToJob in Hsub. simpl in Hsub.
  destruct (decide (c' = c)) as [->|Hne].
  - assert (j' = jobId) as ->.
    { destruct (decide (jobId = j')) as [->|]; [done|].
      by apply (unopened_not_subscribed w c Hinv Hun) in Hsub. }
    exists (set_phase Returned
              (push_frame (FrameUpdate (jobsWebSocket.current_status jobId j))
                 (set_wsData d cn))), d.
    split; [|done].
    rewrite !on_conn_lookup, !decide_True by done.
    change (conns (subscribeToJob jobId c (on_conn (set_wsData d) c w)))
      with (conns (on_conn (set_wsData d) c w)).
    rewrite on_conn_lookup, decide_True, Hc by done. done.
  - assert (c' ∈ subscribers j' (bus w)) as Hold.
    { destruct (decide (jobId = j')); [|done].
      apply elem_of_union in Hsub as [Hs%elem_of_singleton|Hs]; done. }
    destruct (Hinv j' c' Hold) as (cn' & d' & Hcn' & Hrest).
    exists cn', d'. split; [|done].
    rewrite !on_conn_lookup, !decide_False by done.
    change (conns (subscribeToJob jobId c (on_conn (set_wsData d) c w)))
      with (conns (on_conn (set_wsData d) c w)).
    by rewrite on_conn_lookup, decide_False by done.
Qed.

Lemma close_subscribers c w jobId k :
  k ∈ subscribers jobId (bus (jobsWebSocket.close c w)) ->
  k ∈ subscribers jobId (bus w).
Proof.
  unfold jobsWebSocket.close.
  destruct (conns w !! c ≫= wsData) as [d|]; [|done].
  rewrite subscribers_unsubscribeFromJob. simpl. intros H.
  destruct (decide _); [|done]. by apply elem_of_difference in H as [H _].
Qed.

Lemma close_kept c w k : kept w (jobsWebSocket.close c w) k.
Proof.
  unfold jobsWebSocket.close.
  destruct (conns w !! c ≫= wsData) as [d|]; by apply kept_on_conn.
Qed.

Lemma bus_tracks_wsData_step w w' :
  step sha256_hex getSession isPing w w' ->
  bus_tracks_wsData w -> bus_tracks_wsData w'.
Proof.
  intros Hstep Hinv.
  destruct Hstep as [c w|c hdrs jobId w Hfresh|env c w|c w|c message w|c w].
  - destruct (call_keeps c w) as [Hbus Hkeep].
    apply (bus_tracks_wsData_mono w); [done|].
    intros jobId k Hk. rewrite Hbus in Hk. by split.
  - apply (bus_tracks_wsData_frame w _ c); [done| |done|].
    + by rewrite Hfresh.
    + intros k Hk. unfold kept, jobsWebSocket.open_begin. simpl.
      by rewrite lookup_insert_ne.
  - destruct (open_identity_keeps env c w) as [->|(Hp & Hbus & Hkeep)]; [done|].
    by apply (bus_tracks_wsData_frame w _ c).
  - by apply bus_tracks_wsData_open_job.
  - unfold jobsWebSocket.message. destruct (isPing message); [|done].
    apply (bus_tracks_wsData_mono w); [done|].
    intros jobId k Hk. split; [done|]. by apply kept_on_conn.
  - apply (bus_tracks_wsData_mono w); [done|].
    intros jobId k Hk. split; [by eapply close_subscribers|apply close_kept].
Qed.

(** In every world the server can be in, the bus holds exactly the
    subscriptions the connections remember. *)
Lemma reachable_bus_tracks_wsData w :
  reachable sha256_hex getSession isPing w -> bus_tracks_wsData w.
Proof.
  induction 1 as [w Hbus _|w w' _ IH Hstep].
  - intros jobId c Hc. unfold subscribers in Hc. rewrite Hbus in Hc.
    rewrite lookup_empty in Hc. by apply not_elem_of_empty in Hc.
  - by eapply bus_tracks_wsData_step.
Qed.

(** The close handler removes every subscription its connection has at
    that moment. *)
Lemma close_unsubscribes c w :
  reachable sha256_hex getSession isPing w ->
  forall jobId, c ∉ subscribers jobId (bus (jobsWebSocket.close c w)).
Proof.
  intros Hreach jobId Hc.
  apply reachable_bus_tracks_wsData in Hreach as Hinv.
  pose proof (close_subscribers c w jobId c Hc) as Hold.
  destruct (Hinv jobId c Hold) as (cn & d & Hcn & _ & Hd & Hj & Hcb).
  unfold jobsWebSocket.close in Hc. rewrite Hcn in Hc. simpl in Hc.
  rewrite Hd in Hc. rewrite subscribers_unsubscribeFromJob in Hc.
  simpl in Hc. rewrite decide_True in Hc by done.
  apply elem_of_difference in Hc as [_ Hn]. apply Hn.
  rewrite Hcb. by apply elem_of_singleton.
Qed.

End Invariant.

(** C8 does not hold of the code: [open] sets [ws.data.wsData] and
    subscribes only after its [await]s, so a peer that goes away while
    [open] waits for the job row finds nothing to clean up in [close],
    and the subscription [open] then makes stays in the bus of a world
    the server can reach, for a socket that is gone. *)
Theorem close_during_open_leaves_subscription :
  let w1 := jobsWebSocket.open_begin 7 hdrs_a "job_abc" world0 in
  let w2 := jobsWebSocket.open_identity sha_stub no_session env_noon 7 w1 in
  let w3 := jobsWebSocket.close 7 w2 in
  let w4 := jobsWebSocket.open_job 7 w3 in
  reachable sha_stub no_session ping_stub w4
  /\ bus w3 = ∅
  /\ closed <$> conns w4 !! 7%nat = Some true
  /\ wsd_jobId <$> (conns w4 !! 7%nat ≫= wsData) = Some "job_abc"
  /\ subscribers "job_abc" (bus w4) = {[7%nat]}.
Proof.
  intros w1 w2 w3 w4. split.
  - apply reachable_step with (w := w3); [|apply step_open_job].
    apply reachable_step with (w := w2); [|apply step_close].
    apply reachable_step with (w := w1); [|apply step_open_identity].
    apply reachable_step with (w := world0); [by apply reachable_start|].
    by apply step_open_begin.
  - by vm_compute.
Qed.

(** ** The statements at the example data *)

Lemma completeJob_idempotent_accounting_witness :
  let w1 := snd (completeJob env_noon "job_abc" result_hi world_used) in
  let w2 := complete_again "job_abc"
              [(env_midnight, result_hi); (env_noon, result_hi)] w1 in
  apiKeyUsageDaily (db world_used) = [usage_old]
  /\ events_of "job_abc" (db world_used) = []
  /\ event_recorded env_noon "ak_1" "job_abc" result_hi (db world_used) (db w1)
  /\ aggregate_incremented "ak_1" "2023-11-14" result_hi (db world_used) (db w1)
  /\ apiKeyUsageDaily (db w1)
     = [{| du_apiKeyId := "ak_1"; du_day := "2023-11-14"; du_pages := 5;
           du_jobsCount := 2; du_promptTokens := 40; du_completionTokens := 25 |}]
  /\ length (events_of "job_abc" (db w1)) = 1%nat
  /\ ledger_unchanged w1 w2
  /\ length (events_of "job_abc" (db w2)) = 1%nat
  /\ forall env', wall_clock env' ->
       fst (completeJob env' "job_abc" result_hi w2) = Ok tt.
Proof.
  intros w1 w2. split; [reflexivity|]. split; [reflexivity|].
  destruct (completeJob_idempotent_accounting env_noon "job_abc" result_hi world_used
              job_abc "ak_1" [(env_midnight, result_hi); (env_noon, result_hi)])
    as (Hfirst & Hrest).
  - reflexivity.
  - reflexivity.
  - discriminate.
  - simpl. lia.
  - vm_compute. reflexivity.
  - change (events_of "job_abc" (db world_used)) with (@nil UsageEvent) in Hfirst.
    destruct Hfirst as [Hevent Haggregate].
    change (isoDate (clock env_noon)) with "2023-11-14" in Haggregate.
    split; [exact Hevent|]. split; [exact Haggregate|].
    split; [vm_compute; reflexivity|]. exact Hrest.
Defined.

Lemma aggregate_consistent_run_witness :
  Forall same_day calls_afternoon
  /\ aggregate_consistent (db world0)
  /\ aggregate_consistent (db (run calls_afternoon world0)).
Proof.
  assert (Forall same_day calls_afternoon) as Hdays.
  { repeat constructor. }
  assert (aggregate_consistent (db world0)) as H0.
  { intros apiKeyId day. reflexivity. }
  split; [exact Hdays|]. split; [exact H0|].
  exact (aggregate_consistent_run calls_afternoon world0 Hdays H0).
Defined.

Lemma completeJob_durability_units_witness :
  let u := jobSet_of_result (clock env_noon) result_hi in
  let r := completeJob env_noon "job_abc" result_hi world_used in
  let r' := completeJob env_noon "job_abc" result_hi world_full in
  let r'' := completeJob env_noon "job_web" result_hi world_web in
  usage_accepted env_noon "ak_1" result_hi (db world_used)
  /\ fst r = Ok tt
  /\ event_recorded env_noon "ak_1" "job_abc" result_hi (db world_used) (db (snd r))
  /\ aggregate_incremented "ak_1" "2023-11-14" result_hi (db world_used) (db (snd r))
  /\ fst r' = Thrown IntegerOutOfRange
  /\ jobs (db (snd r')) = update_rows "job_abc" u (jobs (db world_full))
  /\ ledger_unchanged world_full (snd r')
  /\ truthy (getJobById "job_web" world_web ≫= job_apiKeyId) = false
  /\ ledger_unchanged world_web (snd r'')
  /\ fst r'' = Ok tt.
Proof.
  intros u r r' r''.
  assert (usage_accepted env_noon "ak_1" result_hi (db world_used)) as Haccepted.
  { unfold usage_accepted. cbv zeta.
    change (isoDate (clock env_noon)) with "2023-11-14".
    split; [by apply (bool_decide_unpack _); vm_compute|].
    split; [by apply (bool_decide_unpack _); vm_compute|].
    split; [reflexivity|]. split; [reflexivity|].
    repeat constructor. }
  destruct (completeJob_durability_units env_noon "job_abc" result_hi world_used)
    as (_ & _ & _ & Howned).
  destruct (Howned "ak_1") as [Hledger Hreturns];
    [reflexivity|discriminate|reflexivity|].
  pose proof (Hreturns eq_refl Haccepted) as Hok. fold r in Hok, Hledger.
  rewrite Hok in Hledger.
  change (events_of "job_abc" (db world_used)) with (@nil UsageEvent) in Hledger.
  destruct Hledger as [Hevent Haggregate].
  change (isoDate (clock env_noon)) with "2023-11-14" in Haggregate.
  destruct (completeJob_durability_units env_noon "job_abc" result_hi world_full)
    as (Hjob' & _ & _ & Howned').
  destruct (Howned' "ak_1") as [Hledger' _];
    [reflexivity|discriminate|reflexivity|].
  assert (fst r' = Thrown IntegerOutOfRange) as Hthrown by (vm_compute; reflexivity).
  fold r' in Hledger'. rewrite Hthrown in Hledger'.
  destruct (completeJob_durability_units env_noon "job_web" result_hi world_web)
    as (_ & _ & Hnone & _).
  destruct (Hnone eq_refl) as [Hledger'' Hreturns''].
  split; [exact Haccepted|]. split; [exact Hok|]. split; [exact Hevent|].
  split; [exact Haggregate|]. split; [exact Hthrown|].
  split; [exact (Hjob' eq_refl)|]. split; [exact Hledger'|].
  split; [reflexivity|]. split; [exact Hledger''|]. exact (Hreturns'' eq_refl).
Defined.


Lemma job_store_overwrites_status_witness :
  getJobById "job_abc" world0 = Some job_abc
  /\ job_status <$> getJobById "job_abc"
                      (snd (updateJobStatus "job_abc" extracting None world0))
     = Some extracting.
Proof.
  split; [reflexivity|].
  destruct (job_store_overwrites_status "job_abc" world0 job_abc)
    as (Hupdate & _ & _); [reflexivity|].
  apply Hupdate. reflexivity.
Defined.

Lemma failJob_increments_retryCount_witness :
  let r := failJob "job_abc" "OCR_TIMEOUT" "OCR request timed out" true world0 in
  getJobById "job_abc" world0 = Some job_abc
  /\ int4_ok (job_retryCount job_abc + 1) = true
  /\ fst r = Ok tt
  /\ job_retryCount <$> getJobById "job_abc" (snd r) = Some (job_retryCount job_abc + 1).
Proof.
  intros r. split; [reflexivity|]. split; [reflexivity|].
  apply (failJob_increments_retryCount
           "job_abc" "OCR_TIMEOUT" "OCR request timed out" true world0 job_abc);
    reflexivity.
Defined.

Lemma open_rejects_unmatched_job_witness :
  let w1' := jobsWebSocket.open sha_stub no_session env_noon 7 hdrs_b "job_abc" world_nojob in
  let w2' := jobsWebSocket.open sha_stub no_session env_noon 7 hdrs_b "job_abc" world0 in
  getJobById "job_abc" world_nojob = None
  /\ (job_organizationId <$> getJobById "job_abc" world0) = Some "org_a"
  /\ conns w1' !! 7%nat = Some (conn_rejected "Job not found")
  /\ conns w2' !! 7%nat = conns w1' !! 7%nat
  /\ bus w1' = bus world_nojob /\ bus w2' = bus world0
  /\ db w1' = db world_nojob /\ db w2' = db world0.
Proof.
  intros w1' w2'. split; [reflexivity|]. split; [reflexivity|].
  apply (open_rejects_unmatched_job sha_stub no_session env_noon 7 hdrs_b
           "job_abc" "user_2" "org_b" world_nojob world0).
  - vm_compute. reflexivity.
  - vm_compute. reflexivity.
  - reflexivity.
  - intros j Hin _. apply list_elem_of_singleton in Hin. rewrite Hin.
    discriminate.
Defined.

Lemma notification_without_job_row_witness :
  getJobById "job_zzz" world0 = None
  /\ notified_without_write (error_message "job_zzz" "OCR request timed out") world0
       (failJob "job_zzz" "OCR_TIMEOUT" "OCR request timed out" false world0)
  /\ notified_without_write (completed_message "job_zzz" result_hi) world0
       (completeJob env_noon "job_zzz" result_hi world0).
Proof.
  split; [reflexivity|].
  destruct (notification_without_job_row "job_zzz" world0) as (_ & Hcomplete & Hfail).
  destruct (Hfail "OCR_TIMEOUT" "OCR request timed out") as [_ Hnone].
  destruct (Hcomplete env_noon result_hi) as (_ & _ & Hnone').
  split; [exact (Hnone eq_refl)|exact (Hnone' eq_refl eq_refl)].
Defined.

Lemma completeJob_day_is_utc_date_of_completedAt_witness :
  let r := completeJob env_midnight "job_abc" result_hi world0 in
  isoDate (clock env_midnight) = "2023-11-14"
  /\ isoDate (db_now env_midnight) = "2023-11-15"
  /\ job_completedAt <$> getJobById "job_abc" (snd r) = Some (Some (clock env_midnight))
  /\ (du_day <$> apiKeyUsageDaily (db (snd r))) = ["2023-11-14"]
  /\ ue_createdAt <$> last (usageEvents (db (snd r))) = Some (db_now env_midnight).
Proof.
  intros r. split; [vm_compute; reflexivity|]. split; [vm_compute; reflexivity|].
  destruct (completeJob_day_is_utc_date_of_completedAt
              env_midnight "job_abc" result_hi world0 job_abc "ak_1")
    as (Hdone & Hrows & _ & _ & Hstamp).
  - reflexivity.
  - reflexivity.
  - discriminate.
  - reflexivity.
  - vm_compute. reflexivity.
  - split; [exact Hdone|]. split; [|exact Hstamp].
    fold r in Hrows. rewrite Hrows. vm_compute. reflexivity.
Defined.

(** * Further properties of the job store *)

Lemma identity_of_update_rows jobId u rows :
  identity_of <$> update_rows jobId u rows = identity_of <$> rows.
Proof.
  unfold update_rows. induction rows as [|j rows IH]; [done|].
  cbn [map fmap list_fmap]. f_equal; [|exact IH].
  by destruct (is_job jobId j).
Qed.

(** What a call leaves of the store and the bus: the jobs table is the
    old one or the old one with the rows of the call's job rewritten. *)
Lemma call_jobs c w :
  (jobs (db (snd (call c w))) = jobs (db w)
   \/ exists u, jobs (db (snd (call c w))) = update_rows (call_jobId c) u (jobs (db w)))
  /\ apiKeys (db (snd (call c w))) = apiKeys (db w).
Proof.
  destruct c as [jobId status data|env jobId result|jobId ec em sr]; simpl.
  - rewrite updateJobStatus_eq. destruct (jobSet_ok _); [|by split; [left|]].
    split; [right; by eexists|done].
  - destruct (jobSet_ok (jobSet_of_result (clock env) result)) eqn:E.
    + split; [right; eexists; by apply completeJob_jobs|].
      rewrite completeJob_eq. simpl. rewrite E.
      destruct (getJobById jobId w ≫= job_apiKeyId) as [key|]; [|done].
      destruct (bool_decide (key = "")); [done|].
      destruct (recordUsage _ _ _ _ _ _) as [[[] d2]|e] eqn:R; [|done].
      by apply recordUsage_jobs in R as [_ R].
    + rewrite completeJob_eq. simpl. rewrite E. by split; [left|].
  - rewrite failJob_eq. simpl. destruct (int4_ok _); [|by split; [left|]].
    destruct sr; (split; [right; by eexists|done]).
Qed.

(** X1: the job store neither inserts nor deletes a job row, and never
    changes the id, the organization, the user or the owning API key of
    one; it leaves the API keys and the bus alone. *)
Theorem run_keeps_job_identity calls w :
  identity_of <$> jobs (db (run calls w)) = identity_of <$> jobs (db w)
  /\ apiKeys (db (run calls w)) = apiKeys (db w)
  /\ bus (run calls w) = bus w.
Proof.
  revert w. induction calls as [|c calls IH]; intros w; [done|].
  change (run (c :: calls) w) with (run calls (snd (call c w))).
  destruct (IH (snd (call c w))) as (-> & -> & ->).
  destruct (call_jobs c w) as [[Hj|[u Hj]] Hk]; rewrite Hj, Hk;
    destruct (call_keeps c w) as [-> _]; try done.
  by rewrite identity_of_update_rows.
Qed.

Lemma update_rows_lookup_other jobId u rows (i : nat) j :
  rows !! i = Some j -> job_id j <> jobId ->
  update_rows jobId u rows !! i = Some j.
Proof.
  intros Hi Hne. unfold update_rows.
  change (map ?f rows) with (f <$> rows).
  rewrite list_lookup_fmap, Hi. simpl.
  unfold is_job. by rewrite bool_decide_eq_false_2.
Qed.

(** X2: a call writes the rows of its own job only: every row with
    another id is where it was and as it was, whatever the call's
    arguments and outcome. *)
Theorem call_keeps_other_jobs c w (i : nat) j :
  jobs (db w) !! i = Some j ->
  job_id j <> call_jobId c ->
  jobs (db (snd (call c w))) !! i = Some j.
Proof.
  intros Hi Hne. destruct (call_jobs c w) as [[->|[u ->]] _]; [done|].
  by apply update_rows_lookup_other.
Qed.

(** What a call does to the usage events: nothing, or one more event, of
    the call's job, with an id and a job no event had. *)
Lemma call_usageEvents c w :
  usageEvents (db (snd (call c w))) = usageEvents (db w)
  \/ exists e,
       usageEvents (db (snd (call c w))) = usageEvents (db w) ++ [e]
       /\ ue_jobId e = call_jobId c
       /\ (ue_jobId e ∉ ue_jobId <$> usageEvents (db w))
       /\ (ue_id e ∉ ue_id <$> usageEvents (db w)).
Proof.
  destruct c as [jobId status data|env jobId result|jobId ec em sr]; simpl.
  - left. apply updateJobStatus_ledger.
  - rewrite completeJob_eq. simpl.
    destruct (jobSet_ok _); [|by left].
    destruct (getJobById jobId w ≫= job_apiKeyId) as [key|]; [|by left].
    destruct (bool_decide (key = "")); [by left|].
    unfold recordUsage, tx_bind, insert_usageEvent. simpl.
    destruct (negb (event_ok _)); [by left|].
    destruct (existsb (event_of_job jobId) _) eqn:Ejob; [by left|].
    destruct (existsb (fun e' => bool_decide (ue_id e' = _)) _) eqn:Eid; [by left|].
    destruct (negb (has_key key _)); [by left|].
    assert (forall d2 : Db,
              usageEvents d2 = usageEvents (db w)
                               ++ [usage_event env key jobId result] ->
              exists e,
                usageEvents d2 = usageEvents (db w) ++ [e]
                /\ ue_jobId e = jobId
                /\ (ue_jobId e ∉ ue_jobId <$> usageEvents (db w))
                /\ (ue_id e ∉ ue_id <$> usageEvents (db w))) as Hnew.
    { intros d2 Hd2. eexists. split; [exact Hd2|]. split; [done|].
      split.
      - intros (e' & He' & Hin)%list_elem_of_fmap.
        apply list_elem_of_In in Hin.
        assert (existsb (event_of_job jobId) (usageEvents (db w)) = true) as Hx.
        { apply existsb_exists. exists e'. split; [done|].
          unfold event_of_job. simpl in He'. by rewrite bool_decide_eq_true_2. }
        simpl in Hx. congruence.
      - intros (e' & He' & Hin)%list_elem_of_fmap.
        apply list_elem_of_In in Hin.
        assert (existsb (fun e0 => bool_decide (ue_id e0 = createId env id_usageEvent))
                  (usageEvents (db w)) = true) as Hx.
        { apply existsb_exists. exists e'. split; [done|].
          simpl in He'. by rewrite bool_decide_eq_true_2. }
        simpl in Eid. congruence. }
    unfold upsert_apiKeyUsageDaily. simpl.
    destruct (negb (daily_ok _)); [by left|].
    destruct (has_daily _ _).
    + destruct (forallb _ _); [|by left]. right. by apply Hnew.
    + unfold has_key. simpl. destruct (existsb _ (apiKeys (db w))); [|by left].
      right. by apply Hnew.
  - left. apply failJob_ledger.
Qed.

(** X3: usage events are only ever appended: after any sequence of job
    store calls the events the store had are still its first events,
    unchanged and in order. *)
Theorem run_appends_usageEvents calls w :
  usageEvents (db w) `prefix_of` usageEvents (db (run calls w)).
Proof.
  revert w. induction calls as [|c calls IH]; intros w; [done|].
  change (run (c :: calls) w) with (run calls (snd (call c w))).
  etrans; [|apply IH].
  destruct (call_usageEvents c w) as [->|(e & -> & _)]; [done|].
  by apply prefix_app_r.
Qed.

(** X4: the job store keeps the two keys of the usage events: if no two
    events share a job or an id, no sequence of calls makes two that
    do. *)
Theorem run_keeps_usageEvents_unique calls w :
  NoDup (ue_jobId <$> usageEvents (db w)) ->
  NoDup (ue_id <$> usageEvents (db w)) ->
  NoDup (ue_jobId <$> usageEvents (db (run calls w)))
  /\ NoDup (ue_id <$> usageEvents (db (run calls w))).
Proof.
  revert w. induction calls as [|c calls IH]; intros w Hj Hi; [done|].
  change (run (c :: calls) w) with (run calls (snd (call c w))).
  apply IH; destruct (call_usageEvents c w) as [->|(e & -> & _ & Hnj & Hni)];
    try done; rewrite fmap_app; simpl; apply NoDup_app; (split; [done|]);
    (split; [|apply NoDup_singleton]);
    intros x Hx ->%list_elem_of_singleton; done.
Qed.

(** X5: completing a job that has no owning API key (none, or the empty
    string), or a job that is not stored, records no usage: the ledger is
    as it was, and once the row write is accepted the call returns and
    publishes its notification. *)
Theorem completeJob_without_owner env jobId result w :
  truthy (getJobById jobId w ≫= job_apiKeyId) = false ->
  let r := completeJob env jobId result w in
  ledger_unchanged w (snd r)
  /\ (jobSet_ok (jobSet_of_result (clock env) result) = true ->
      fst r = Ok tt
      /\ publishLog (snd r) = publishLog w ++ [completed_message jobId result]).
Proof.
  intros Hno r. subst r. rewrite completeJob_eq. simpl.
  destruct (jobSet_ok _); [|by split].
  destruct (getJobById jobId w ≫= job_apiKeyId) as [key|]; [|by split].
  simpl in Hno. apply negb_false_iff in Hno. rewrite Hno. by split.
Qed.

(** X6: completeJob and failJob keep what they do not write.  A call the
    store accepts leaves, on a stored job: after completeJob the error
    code, error message, retry count and start time, and each optional
    result (model, JSON result, token count) that the call does not
    carry; after failJob every result of an earlier completion. *)
Theorem terminal_writes_keep_other_columns jobId w j :
  getJobById jobId w = Some j ->
  (forall env result j',
     jobSet_ok (jobSet_of_result (clock env) result) = true ->
     getJobById jobId (snd (completeJob env jobId result w)) = Some j' ->
     job_errorCode j' = job_errorCode j
     /\ job_errorMessage j' = job_errorMessage j
     /\ job_retryCount j' = job_retryCount j
     /\ job_startedAt j' = job_startedAt j
     /\ (llmModel result = None -> job_llmModel j' = job_llmModel j)
     /\ (jsonResult result = None -> job_jsonResult j' = job_jsonResult j)
     /\ (tokenCount result = None -> job_tokenCount j' = job_tokenCount j))
  /\ (forall errorCode errorMessage shouldRetry j',
     int4_ok (job_retryCount j + 1) = true ->
     getJobById jobId (snd (failJob jobId errorCode errorMessage shouldRetry w))
       = Some j' ->
     job_markdownResult j' = job_markdownResult j
     /\ job_jsonResult j' = job_jsonResult j
     /\ job_llmModel j' = job_llmModel j
     /\ job_pageCount j' = job_pageCount j
     /\ job_tokenCount j' = job_tokenCount j
     /\ job_completedAt j' = job_completedAt j
     /\ job_processingTimeMs j' = job_processingTimeMs j
     /\ job_startedAt j' = job_startedAt j).
Proof.
  intros Hj. split.
  - intros env result j' Hok Hj'.
    rewrite getJobById_completeJob, Hj in Hj' by done.
    injection Hj' as <-. simpl.
    repeat split; try done; by intros ->.
  - intros errorCode errorMessage shouldRetry j' Hok Hj'.
    rewrite failJob_eq, Hj in Hj'. simpl in Hj'. rewrite Hok in Hj'.
    assert (getJobById jobId
              (with_db (with_jobs
                 (update_rows jobId
                    (jobSet_of_failure errorCode errorMessage (job_retryCount j + 1))
                    (jobs (db w))) (db w)) w) = Some j') as Hj''.
    { by destruct shouldRetry. }
    erewrite getJobById_update_rows in Hj'' by reflexivity. rewrite Hj in Hj''.
    injection Hj'' as <-. done.
Qed.

(** X7: a write the store refuses has no effect at all.  When an integer
    of the call does not fit its column, updateJobStatus, completeJob and
    failJob throw, and the world is as it was: no row is written and
    nothing is published. *)
Theorem refused_write_changes_nothing jobId w :
  (forall status data,
     jobSet_ok (jobSet_of_update status data) = false ->
     updateJobStatus jobId status data w = (Thrown IntegerOutOfRange, w))
  /\ (forall env result,
     jobSet_ok (jobSet_of_result (clock env) result) = false ->
     completeJob env jobId result w = (Thrown IntegerOutOfRange, w))
  /\ (forall errorCode errorMessage shouldRetry,
     int4_ok (default 0 (job_retryCount <$> getJobById jobId w) + 1) = false ->
     failJob jobId errorCode errorMessage shouldRetry w
     = (Thrown IntegerOutOfRange, w)).
Proof.
  split; [|split].
  - intros status data Hno. by rewrite updateJobStatus_eq, Hno.
  - intros env result Hno. rewrite completeJob_eq. simpl. by rewrite Hno.
  - intros errorCode errorMessage shouldRetry Hno.
    rewrite failJob_eq. simpl. by rewrite Hno.
Qed.

(** X8: a job store call publishes at most one message, about its own
    job, and only when it returns: the log of published messages grows by
    the call's message if the call returns (and is not a failJob that
    will be retried), and not at all if it throws. *)
Theorem call_publishes_own_message c w :
  publishLog (snd (call c w))
  = publishLog w ++ match fst (call c w), call_message c with
                    | Ok _, Some m => [m]
                    | _, _ => []
                    end
  /\ (forall m, call_message c = Some m -> msg_jobId m = call_jobId c).
Proof.
  split.
  - destruct c as [jobId status data|env jobId result|jobId ec em sr]; simpl.
    + rewrite updateJobStatus_eq. destruct (jobSet_ok _); [done|].
      simpl. by rewrite app_nil_r.
    + rewrite completeJob_publishLog. by destruct (fst _).
    + rewrite failJob_eq. simpl. destruct (int4_ok _).
      * destruct sr; simpl; [by rewrite app_nil_r|done].
      * simpl. by rewrite app_nil_r.
  - destruct c as [jobId status data|env jobId result|jobId ec em sr]; simpl.
    + by intros m [= <-].
    + by intros m [= <-].
    + destruct sr; [done|]. by intros m [= <-].
Qed.

(** * Further properties of the gateway *)

Lemma on_conn_compose f g c w :
  on_conn f c (on_conn g c w) = on_conn (f ∘ g) c w.
Proof.
  unfold on_conn, with_conns. simpl. f_equal. apply alter_alter_eq.
Qed.

Lemma reject_on_conn error c w :
  reject error c w
  = on_conn (set_phase Returned ∘ set_closeCalled ∘ push_frame (FrameError error)) c w.
Proof. unfold reject. by rewrite !on_conn_compose. Qed.

Lemma benign_set_phase p : benign (set_phase p).
Proof. by intros cn. Qed.

Lemma benign_set_closed : benign set_closed.
Proof. by intros cn. Qed.

Lemma benign_push_other f :
  (forall m, f <> FrameUpdate m) -> benign (push_frame f).
Proof.
  intros Hf cn. split; [done|]. intros m. simpl.
  intros [H|H%list_elem_of_singleton]%elem_of_app; [done|].
  by destruct (Hf m).
Qed.

Lemma benign_rejected error :
  benign (set_phase Returned ∘ set_closeCalled ∘ push_frame (FrameError error)).
Proof.
  intros cn. split; [done|]. intros m. simpl.
  intros [H|H%list_elem_of_singleton]%elem_of_app; done.
Qed.

Lemma conn_inv_benign c cn f :
  conn_inv c cn -> benign f ->
  phase cn <> Returned \/ phase (f cn) = phase cn ->
  conn_inv c (f cn).
Proof.
  intros (I1 & I2 & I3) Hf Hp. destruct (Hf cn) as [Hd Hs].
  split; [|split].
  - intros Hnr. rewrite Hd. apply I1. destruct Hp as [Hp|Hp]; congruence.
  - intros d. rewrite Hd. apply I2.
  - intros m Hm. rewrite Hd. by apply I3, Hs.
Qed.

Lemma conns_inv_on_conn f c w :
  conns_inv w -> benign f ->
  (forall cn, conns w !! c = Some cn ->
     phase cn <> Returned \/ phase (f cn) = phase cn) ->
  conns_inv (on_conn f c w).
Proof.
  intros Hinv Hf Hp k cn'. rewrite on_conn_lookup.
  destruct (decide (c = k)) as [->|Hne]; [|by apply Hinv].
  destruct (conns w !! k) as [cn|] eqn:Hk; [|done].
  simpl. intros [= <-]. apply conn_inv_benign; [by apply Hinv|done|by apply Hp].
Qed.

(** The connections after a job store call: each is as it was, or is a
    subscriber of the call's job that was handed the call's message. *)
Lemma call_conns c w k :
  conns (snd (call c w)) !! k = conns w !! k
  \/ exists m,
       call_message c = Some m
       /\ k ∈ subscribers (call_jobId c) (bus w)
       /\ conns (snd (call c w)) !! k = push_frame (FrameUpdate m) <$> conns w !! k.
Proof.
  assert (forall jobId m d,
            conns (snd (publishJobUpdate jobId m (with_db d w))) !! k = conns w !! k
            \/ (k ∈ subscribers jobId (bus w)
                /\ conns (snd (publishJobUpdate jobId m (with_db d w))) !! k
                   = push_frame (FrameUpdate m) <$> conns w !! k)) as Hpub.
  { intros jobId m d. rewrite publishJobUpdate_delivers. simpl.
    destruct (decide _); [by right|by left]. }
  destruct c as [jobId status data|env jobId result|jobId ec em sr]; simpl.
  - rewrite updateJobStatus_eq. destruct (jobSet_ok _); [|by left].
    destruct (Hpub jobId (status_message jobId status data)
                (with_jobs (update_rows jobId (jobSet_of_update status data)
                              (jobs (db w))) (db w))) as [H|[H1 H2]];
      [by left|right; by eexists].
  - rewrite completeJob_eq. simpl. destruct (jobSet_ok _); [|by left].
    set (d1 := with_jobs _ (db w)).
    assert (forall d,
              conns (snd (publishJobUpdate jobId (completed_message jobId result)
                            (with_db d w))) !! k = conns w !! k
              \/ exists m,
                   Some (completed_message jobId result) = Some m
                   /\ k ∈ subscribers jobId (bus w)
                   /\ conns (snd (publishJobUpdate jobId
                                    (completed_message jobId result)
                                    (with_db d w))) !! k
                      = push_frame (FrameUpdate m) <$> conns w !! k) as Hc.
    { intros d. destruct (Hpub jobId (completed_message jobId result) d)
        as [H|[H1 H2]]; [by left|right; by eexists]. }
    destruct (getJobById jobId w ≫= job_apiKeyId) as [key|]; [|apply Hc].
    destruct (bool_decide (key = "")); [apply Hc|].
    destruct (recordUsage _ _ _ _ _ _) as [[[] d2]|e]; [|by left].
    apply (Hc d2).
  - rewrite failJob_eq. simpl. destruct (int4_ok _); [|by left].
    destruct sr; [by left|].
    destruct (Hpub jobId (error_message jobId em)
                (with_jobs (update_rows jobId
                              (jobSet_of_failure ec em
                                 (default 0 (job_retryCount <$> getJobById jobId w) + 1))
                              (jobs (db w))) (db w))) as [H|[H1 H2]];
      [by left|right; by eexists].
Qed.

Lemma call_message_jobId c m :
  call_message c = Some m -> msg_jobId m = call_jobId c.
Proof.
  destruct c as [jobId status data|env jobId result|jobId ec em sr]; simpl.
  - by intros [= <-].
  - by intros [= <-].
  - destruct sr; [done|]. by intros [= <-].
Qed.

Section GatewayInvariants.

Context (sha256_hex : string -> string).
Context (getSession : option string -> option Session).
Context (isPing : string -> bool).

Lemma conns_inv_open_identity env c w :
  conns_inv w ->
  conns_inv (jobsWebSocket.open_identity sha256_hex getSession env c w).
Proof.
  intros Hinv. unfold jobsWebSocket.open_identity.
  destruct (conns w !! c) as [cn|] eqn:Hc; simpl; [|done].
  destruct (phase cn) as [hdrs jobId| |] eqn:Hp; try done.
  destruct (validateApiKey_readonly sha256_hex env (authorization hdrs) w) as [r ->].
  assert (forall cn0, conns w !! c = Some cn0 -> phase cn0 <> Returned) as Hnr.
  { intros cn0 H0. rewrite Hc in H0. injection H0 as <-. by rewrite Hp. }
  assert (forall error, conns_inv (reject error c w)) as Hrej.
  { intros error. rewrite reject_on_conn.
    apply conns_inv_on_conn; [done|apply benign_rejected|].
    intros cn0 H0. left. by apply Hnr. }
  assert (forall p, conns_inv (on_conn (set_phase p) c w)) as Hset.
  { intros p. apply conns_inv_on_conn; [done|apply benign_set_phase|].
    intros cn0 H0. left. by apply Hnr. }
  destruct r as [info|]; [apply Hset|].
  destruct (getSession _) as [s|]; [|apply Hrej].
  destruct (session_user s) as [user|]; [|apply Hrej].
  destruct (activeOrganizationId s) as [org|]; [|apply Hrej].
  case_bool_decide; [apply Hrej|apply Hset].
Qed.

Lemma conns_inv_open_job c w :
  conns_inv w -> conns_inv (jobsWebSocket.open_job c w).
Proof.
  intros Hinv. unfold jobsWebSocket.open_job.
  destruct (conns w !! c) as [cn|] eqn:Hc; simpl; [|done].
  destruct (phase cn) as [|jobId userId organizationId|] eqn:Hp; try done.
  destruct (findFirst _ _) as [j|].
  2:{ rewrite reject_on_conn.
      apply conns_inv_on_conn; [done|apply benign_rejected|].
      intros cn0 H0. left. rewrite Hc in H0. injection H0 as <-. by rewrite Hp. }
  set (d := {| wsd_callback := c; wsd_jobId := jobId;
               wsd_organizationId := organizationId; wsd_userId := userId |}).
  destruct (Hinv c cn Hc) as (I1 & I2 & I3).
  assert (wsData cn = None) as Hnone by (apply I1; by rewrite Hp).
  intros k cn'. rewrite !on_conn_lookup.
  change (conns (subscribeToJob jobId c (on_conn (set_wsData d) c w)))
    with (conns (on_conn (set_wsData d) c w)).
  destruct (decide (c = k)) as [<-|Hne].
  2:{ rewrite on_conn_lookup, decide_False by done. by apply Hinv. }
  rewrite on_conn_lookup, !decide_True by done.
  rewrite Hc. simpl. intros [= <-]. split; [done|]. split.
  - simpl. by intros d' [= <-].
  - intros m. simpl.
    intros [H|H%list_elem_of_singleton]%elem_of_app.
    + destruct (I3 m H) as (d' & Hd' & _). congruence.
    + injection H as ->. by exists d.
Qed.

Lemma conns_inv_step w w' :
  step sha256_hex getSession isPing w w' ->
  bus_tracks_wsData w -> conns_inv w -> conns_inv w'.
Proof.
  intros Hstep Hbus Hinv.
  destruct Hstep as [c w|c hdrs jobId w Hfresh|env c w|c w|c message w|c w].
  - intros k cn' Hk.
    destruct (call_conns c w k) as [H|(m & Hm & Hsub & H)]; rewrite H in Hk.
    + by apply Hinv.
    + destruct (conns w !! k) as [cn|] eqn:Hcn; [|done].
      simpl in Hk. injection Hk as <-.
      destruct (Hinv k cn Hcn) as (I1 & I2 & I3).
      split; [done|]. split; [done|].
      intros m'. simpl.
      intros [H'|H'%list_elem_of_singleton]%elem_of_app; [by apply I3|].
      injection H' as ->.
      destruct (Hbus _ _ Hsub) as (cn0 & d & Hcn0 & _ & Hd & Hj & _).
      rewrite Hcn in Hcn0. injection Hcn0 as <-.
      exists d. split; [done|].
      rewrite Hj. symmetry.
      by apply call_message_jobId.
  - intros k cn'. unfold jobsWebSocket.open_begin. simpl.
    rewrite lookup_insert. destruct (decide (c = k)) as [->|]; [|by apply Hinv].
    intros [= <-]. split; [done|]. split; [done|].
    intros m Hm. by apply elem_of_nil in Hm.
  - by apply conns_inv_open_identity.
  - by apply conns_inv_open_job.
  - unfold jobsWebSocket.message. destruct (isPing message); [|done].
    apply conns_inv_on_conn; [done|by apply benign_push_other|].
    intros cn _. by right.
  - unfold jobsWebSocket.close.
    assert (conns_inv (on_conn set_closed c w)) as H.
    { apply conns_inv_on_conn; [done|apply benign_set_closed|].
      intros cn _. by right. }
    by destruct (conns w !! c ≫= wsData).
Qed.

(** In every world the server can be in, each connection holds a
    [wsData] of its own making and was sent updates of its job only. *)
Lemma reachable_conns_inv w :
  reachable sha256_hex getSession isPing w -> conns_inv w.
Proof.
  induction 1 as [w _ Hc|w w' Hr IH Hstep].
  - intros c cn. by rewrite Hc, lookup_empty.
  - eapply conns_inv_step; [done| |done].
    by eapply reachable_bus_tracks_wsData.
Qed.

End GatewayInvariants.

(** * Further properties of the API keys *)

(** [validateApiKey], step by step: the header gives a token or not, the
    token's hash finds a row or not, the row is active or not, and only
    then is the usage counted. *)
Lemma validateApiKey_eq sha256_hex env authHeader updateUsage w :
  validateApiKey sha256_hex env authHeader updateUsage w
  = match bearer_token authHeader with
    | None => (Ok None, w)
    | Some token =>
        match find_key (sha256_hex token) (apiKeys (db w)) with
        | None => (Ok None, w)
        | Some k =>
            if negb (key_isActive k) then (Ok None, w)
            else if updateUsage then
              match update_apiKey_usage (clock env) (key_id k) (db w) with
              | Ok (_, d') => (Ok (Some (info_of k)), with_db d' w)
              | Thrown e => (Thrown e, w)
              end
            else (Ok (Some (info_of k)), w)
        end
    end.
Proof.
  unfold validateApiKey, bearer_token, find_key, hashApiKey.
  destruct (negb (truthy authHeader)); [done|].
  destruct (str_split " " (default "" authHeader)) as [|scheme rest]; [done|].
  destruct (negb (bool_decide (toLowerCase scheme = "bearer"))); [done|].
  cbv zeta.
  destruct (bool_decide (trim (String.concat " " rest) = "")
            || negb (String.prefix "sk_" (trim (String.concat " " rest))));
    [done|].
  unfold bind at 1, query. cbv beta iota.
  destruct (head _) as [k|]; [|done].
  destruct (negb (key_isActive k)); [done|].
  destruct updateUsage; [|done].
  unfold bind, commit, ret.
  by destruct (update_apiKey_usage _ _ _) as [[[] d']|e].
Qed.

Section GatewayExtras.

Context (sha256_hex : string -> string).
Context (getSession : option string -> option Session).
Context (isPing : string -> bool).

Local Abbreviation open_identity := (jobsWebSocket.open_identity sha256_hex getSession).
Local Abbreviation open := (jobsWebSocket.open sha256_hex getSession).
Local Abbreviation open_begin := jobsWebSocket.open_begin.
Local Abbreviation open_job := jobsWebSocket.open_job.
Local Abbreviation close := jobsWebSocket.close.
Local Abbreviation message := (jobsWebSocket.message isPing).

(** X9: a connection is only ever sent updates of the job it subscribed
    to.  In every world the server can reach, a job update among the
    frames sent on a connection is about the job in the connection's
    [wsData], and the callback there is the connection's own. *)
Theorem connection_sent_updates_of_its_job_only w c cn m :
  reachable sha256_hex getSession isPing w ->
  conns w !! c = Some cn ->
  FrameUpdate m ∈ sent cn ->
  exists d, wsData cn = Some d /\ wsd_jobId d = msg_jobId m /\ wsd_callback d = c.
Proof.
  intros Hreach Hc Hm.
  apply reachable_conns_inv in Hreach.
  destruct (Hreach c cn Hc) as (_ & I2 & I3).
  destruct (I3 m Hm) as (d & Hd & Hj). exists d. split; [done|].
  split; [done|]. by apply I2.
Qed.

(** X10: closing removes the connection's own subscriptions and nothing
    else.  In every world the server can reach, the subscribers of each
    job after [close] of connection [c] are the subscribers before,
    without [c]. *)
Theorem close_removes_own_subscription_only w c jobId :
  reachable sha256_hex getSession isPing w ->
  subscribers jobId (bus (close c w)) = subscribers jobId (bus w) ∖ {[c]}.
Proof.
  intros Hreach.
  pose proof (reachable_bus_tracks_wsData _ _ _ w Hreach) as Hbus.
  pose proof (reachable_conns_inv _ _ _ w Hreach) as Hinv.
  assert (forall d cn, conns w !! c = Some cn -> wsData cn = Some d ->
                       wsd_jobId d <> jobId ->
                       subscribers jobId (bus w) ∖ {[c]} = subscribers jobId (bus w))
    as Hother.
  { intros d cn Hc Hd Hne. apply difference_disjoint_L.
    apply disjoint_singleton_r. intros Hin.
    destruct (Hbus jobId c Hin) as (cn' & d' & Hc' & _ & Hd' & Hj & _).
    congruence. }
  unfold jobsWebSocket.close.
  destruct (conns w !! c) as [cn|] eqn:Hc; simpl.
  - destruct (wsData cn) as [d|] eqn:Hd.
    + rewrite subscribers_unsubscribeFromJob. simpl.
      destruct (Hinv c cn Hc) as (_ & I2 & _). rewrite (I2 d Hd).
      destruct (decide (wsd_jobId d = jobId)) as [<-|Hne]; [done|].
      symmetry. by eapply Hother.
    + simpl. symmetry. apply difference_disjoint_L.
      apply disjoint_singleton_r. intros Hin.
      destruct (Hbus jobId c Hin) as (cn' & d' & Hc' & _ & Hd' & _).
      congruence.
  - simpl. symmetry. apply difference_disjoint_L.
    apply disjoint_singleton_r. intros Hin.
    destruct (Hbus jobId c Hin) as (cn' & d' & Hc' & _). congruence.
Qed.

Lemma open_identity_db env c w :
  db (open_identity env c w) = db w
  /\ publishLog (open_identity env c w) = publishLog w.
Proof.
  unfold jobsWebSocket.open_identity.
  destruct (conns w !! c) as [cn|]; simpl; [|done].
  destruct (phase cn) as [hdrs jobId| |]; try done.
  destruct (validateApiKey_readonly sha256_hex env (authorization hdrs) w) as [r ->].
  destruct r as [info|]; [done|].
  destruct (getSession _) as [s|]; [|done].
  destruct (session_user s) as [user|]; [|done].
  destruct (activeOrganizationId s) as [org|]; [|done].
  by case_bool_decide.
Qed.

Lemma open_job_db c w :
  db (open_job c w) = db w /\ publishLog (open_job c w) = publishLog w.
Proof.
  unfold jobsWebSocket.open_job.
  destruct (conns w !! c) as [cn|]; simpl; [|done].
  destruct (phase cn) as [|jobId userId organizationId|]; try done.
  by destruct (findFirst _ _).
Qed.

(** X11: the gateway never writes to the store and never publishes: its
    handlers, and each part of [open] (which validates the API key
    without counting the request), leave the tables and the log of
    published messages as they were. *)
Theorem gateway_never_writes_store env c hdrs jobId text w :
  let same w' := db w' = db w /\ publishLog w' = publishLog w in
  same (open_begin c hdrs jobId w)
  /\ same (open_identity env c w)
  /\ same (open_job c w)
  /\ same (open env c hdrs jobId w)
  /\ same (close c w)
  /\ same (message c text w).
Proof.
  intros same. subst same. simpl.
  split; [done|]. split; [apply open_identity_db|]. split; [apply open_job_db|].
  split.
  - unfold jobsWebSocket.open.
    destruct (open_job_db c (open_identity env c (open_begin c hdrs jobId w)))
      as [-> ->].
    destruct (open_identity_db env c (open_begin c hdrs jobId w)) as [-> ->].
    done.
  - split.
    + unfold jobsWebSocket.close. by destruct (conns w !! c ≫= wsData).
    + unfold jobsWebSocket.message. by destruct (isPing text).
Qed.

(** How [open] resolves its caller: the API key if it is valid, else the
    session. *)
Lemma open_identity_resolved env c hdrs jobId w :
  let w0 := open_begin c hdrs jobId w in
  open_identity env c w0
  = match fst (validateApiKey sha256_hex env (authorization hdrs) false w0) with
    | Ok (Some info) =>
        on_conn (set_phase (AwaitJob jobId (userId info) (organizationId info))) c w0
    | Ok None =>
        match session_identity (getSession (cookie_of hdrs)) with
        | Some (user, org) => on_conn (set_phase (AwaitJob jobId user org)) c w0
        | None => reject "Unauthorized" c w0
        end
    | Thrown _ => on_conn (set_phase Returned) c w0
    end.
Proof.
  intros w0. unfold jobsWebSocket.open_identity.
  replace (phase <$> conns w0 !! c) with (Some (AwaitIdentity hdrs jobId))
    by (unfold w0, jobsWebSocket.open_begin; simpl; by rewrite lookup_insert_eq).
  destruct (validateApiKey_readonly sha256_hex env (authorization hdrs) w0) as [r ->].
  simpl. destruct r as [info|]; [done|].
  unfold session_identity, cookie_of.
  destruct (getSession _) as [s|]; [|done].
  destruct (session_user s) as [user|]; [|done].
  destruct (activeOrganizationId s) as [org|]; [|done].
  by case_bool_decide.
Qed.

(** [validateApiKey] reads the API keys only. *)
Lemma validateApiKey_apiKeys env authHeader w w' :
  apiKeys (db w') = apiKeys (db w) ->
  fst (validateApiKey sha256_hex env authHeader false w')
  = fst (validateApiKey sha256_hex env authHeader false w).
Proof.
  intros Hk. rewrite !validateApiKey_eq, Hk.
  repeat (case_match; simpl; try done).
Qed.

(** Once [open] has returned, its last part does nothing more. *)
Lemma open_job_returned c w :
  phase <$> conns w !! c = Some Returned -> open_job c w = w.
Proof. intros H. unfold jobsWebSocket.open_job. by rewrite H. Qed.

(** X12: a caller with neither a valid API key nor a session that names
    a user and an active organization is sent the one message
    "Unauthorized" and closed; no job is looked up, nothing is
    subscribed and nothing is written. *)
Theorem open_rejects_unidentified_caller env c hdrs jobId w :
  fst (validateApiKey sha256_hex env (authorization hdrs) false w) = Ok None ->
  session_identity (getSession (cookie_of hdrs)) = None ->
  let w' := open env c hdrs jobId w in
  conns w' !! c = Some (conn_rejected "Unauthorized")
  /\ bus w' = bus w /\ db w' = db w.
Proof.
  intros Hkey Hsession w'. subst w'. unfold jobsWebSocket.open.
  rewrite open_identity_resolved.
  rewrite (validateApiKey_apiKeys env _ w) by done.
  rewrite Hkey, Hsession.
  set (w0 := open_begin c hdrs jobId w).
  assert (conns (reject "Unauthorized" c w0) !! c
          = Some (conn_rejected "Unauthorized")) as Hc.
  { rewrite (reject_lookup _ _ _ (conn_new hdrs jobId)); [done|].
    unfold w0, jobsWebSocket.open_begin. simpl. by rewrite lookup_insert_eq. }
  rewrite open_job_returned by (by rewrite Hc). by rewrite Hc.
Qed.

(** X13: a valid API key decides the caller: [open] then takes the user
    and the organization of the key and does not depend on the session
    at all. *)
Theorem open_prefers_api_key env c hdrs jobId w info
    (otherSession : option string -> option Session) :
  fst (validateApiKey sha256_hex env (authorization hdrs) false w) = Ok (Some info) ->
  phase <$> conns (open_identity env c (open_begin c hdrs jobId w)) !! c
    = Some (AwaitJob jobId (userId info) (organizationId info))
  /\ open env c hdrs jobId w
     = jobsWebSocket.open sha256_hex otherSession env c hdrs jobId w.
Proof.
  intros Hkey. split.
  - rewrite open_identity_resolved.
    rewrite (validateApiKey_apiKeys env _ w) by done. rewrite Hkey.
    rewrite on_conn_lookup, decide_True by done.
    unfold jobsWebSocket.open_begin. simpl. by rewrite lookup_insert_eq.
  - unfold jobsWebSocket.open.
    rewrite open_identity_resolved.
    rewrite (validateApiKey_apiKeys env _ w) by done. rewrite Hkey.
    f_equal. symmetry.
    unfold jobsWebSocket.open_identity.
    replace (phase <$> conns (open_begin c hdrs jobId w) !! c)
      with (Some (AwaitIdentity hdrs jobId))
      by (unfold jobsWebSocket.open_begin; simpl; by rewrite lookup_insert_eq).
    destruct (validateApiKey_readonly sha256_hex env (authorization hdrs)
                (open_begin c hdrs jobId w)) as [r Hr].
    rewrite Hr.
    pose proof (validateApiKey_apiKeys env (authorization hdrs) w
                  (open_begin c hdrs jobId w) eq_refl) as Hsame.
    rewrite Hr, Hkey in Hsame. simpl in Hsame. by injection Hsame as ->.
Qed.

Lemma conns_subscribeToJob jobId cb w :
  conns (subscribeToJob jobId cb w) = conns w.
Proof. reflexivity. Qed.

Lemma conns_unsubscribeFromJob jobId cb w :
  conns (unsubscribeFromJob jobId cb w) = conns w.
Proof. reflexivity. Qed.

Lemma bus_on_conn f c w : bus (on_conn f c w) = bus w.
Proof. reflexivity. Qed.

Lemma db_on_conn f c w : db (on_conn f c w) = db w.
Proof. reflexivity. Qed.

Lemma close_with_wsData c w cn d :
  conns w !! c = Some cn -> wsData cn = Some d ->
  close c w = unsubscribeFromJob (wsd_jobId d) (wsd_callback d)
                (on_conn set_closed c w).
Proof. intros Hc Hd. unfold jobsWebSocket.close. rewrite Hc. simpl. by rewrite Hd. Qed.

Lemma open_found env c hdrs jobId userId organizationId w j :
  phase <$> conns (open_identity env c (open_begin c hdrs jobId w)) !! c
    = Some (AwaitJob jobId userId organizationId) ->
  findFirst (jobsWebSocket.job_in_org jobId organizationId) (db w) = Some j ->
  let d := {| wsd_callback := c; wsd_jobId := jobId;
              wsd_organizationId := organizationId; wsd_userId := userId |} in
  let w0 := open_begin c hdrs jobId w in
  open env c hdrs jobId w
  = on_conn (set_phase Returned) c
      (on_conn (push_frame (FrameUpdate (jobsWebSocket.current_status jobId j))) c
         (subscribeToJob jobId c
            (on_conn (set_wsData d) c
               (on_conn (set_phase (AwaitJob jobId userId organizationId)) c w0)))).
Proof.
  intros Hauth Hj d w0. unfold jobsWebSocket.open. fold w0 in Hauth |- *.
  assert (H0 : conns w0 !! c = Some (conn_new hdrs jobId))
    by (unfold w0, jobsWebSocket.open_begin; simpl; by rewrite lookup_insert_eq).
  destruct (open_identity_cases sha256_hex getSession env c hdrs jobId w)
    as [(user & org & E)|E]; fold w0 in E; rewrite E in *.
  - rewrite on_conn_lookup, decide_True, H0 in Hauth by done.
    simpl in Hauth. injection Hauth as -> ->.
    unfold jobsWebSocket.open_job.
    rewrite on_conn_lookup, decide_True, H0 by done. simpl.
    by rewrite Hj.
  - erewrite reject_lookup in Hauth by done. done.
Qed.

Lemma open_found_conn
    env c hdrs jobId userId organizationId w j :
  phase <$> conns (open_identity env c (open_begin c hdrs jobId w)) !! c
    = Some (AwaitJob jobId userId organizationId) ->
  findFirst (jobsWebSocket.job_in_org jobId organizationId) (db w) = Some j ->
  let w' := open env c hdrs jobId w in
  conns w' !! c = Some (conn_subscribed c jobId userId organizationId j)
  /\ subscribers jobId (bus w') = {[c]} ∪ subscribers jobId (bus w).
Proof.
  intros Hauth Hj w'. subst w'. rewrite (open_found _ _ _ _ _ _ _ _ Hauth Hj).
  split.
  - rewrite !on_conn_lookup, !decide_True by done.
    rewrite conns_subscribeToJob.
    rewrite !on_conn_lookup, !decide_True by done.
    unfold jobsWebSocket.open_begin. simpl. by rewrite lookup_insert_eq.
  - rewrite !bus_on_conn.
    rewrite subscribers_subscribeToJob. by rewrite decide_True.
Qed.

(** X14: a caller whose organization has a row for the job is
    subscribed.  After [open] the connection holds its [wsData] (its own
    callback, the job, the caller), has been sent exactly one frame, the
    status of the row found, and is not closed; the row is one of the
    caller's organization; the bus has this connection more among the
    subscribers of the job and is otherwise unchanged. *)
Theorem open_subscribes_caller_of_own_organization
    env c hdrs jobId userId organizationId w j :
  phase <$> conns (open_identity env c (open_begin c hdrs jobId w)) !! c
    = Some (AwaitJob jobId userId organizationId) ->
  findFirst (jobsWebSocket.job_in_org jobId organizationId) (db w) = Some j ->
  let w' := open env c hdrs jobId w in
  job_id j = jobId /\ job_organizationId j = organizationId
  /\ conns w' !! c = Some (conn_subscribed c jobId userId organizationId j)
  /\ subscribers jobId (bus w') = {[c]} ∪ subscribers jobId (bus w)
  /\ (forall other, other <> jobId ->
        subscribers other (bus w') = subscribers other (bus w)).
Proof.
  intros Hauth Hj w'. subst w'. rewrite (open_found _ _ _ _ _ _ _ _ Hauth Hj).
  split; [|split].
  - apply find_some in Hj as [_ Hj]. unfold jobsWebSocket.job_in_org, is_job in Hj.
    apply andb_true_iff in Hj as [Hj _]. by apply bool_decide_eq_true_1 in Hj.
  - apply find_some in Hj as [_ Hj]. unfold jobsWebSocket.job_in_org in Hj.
    apply andb_true_iff in Hj as [_ Hj]. by apply bool_decide_eq_true_1 in Hj.
  - split; [|split].
    + rewrite !on_conn_lookup, !decide_True by done.
      rewrite conns_subscribeToJob.
      rewrite !on_conn_lookup, !decide_True by done.
      unfold jobsWebSocket.open_begin. simpl. by rewrite lookup_insert_eq.
    + rewrite !bus_on_conn.
      rewrite subscribers_subscribeToJob. by rewrite decide_True.
    + intros other Hne.
      rewrite !bus_on_conn.
      rewrite subscribers_subscribeToJob. by rewrite decide_False.
Qed.

(** X15: subscribing, notifying and closing compose.  After an [open]
    that found its job, a status update of that job by updateJobStatus
    is the second frame of the connection; if the connection is closed
    first, the update is not sent to it.  (The update is one the store
    accepts.) *)
Theorem open_then_update_then_close
    env c hdrs jobId userId organizationId w j status data :
  phase <$> conns (open_identity env c (open_begin c hdrs jobId w)) !! c
    = Some (AwaitJob jobId userId organizationId) ->
  findFirst (jobsWebSocket.job_in_org jobId organizationId) (db w) = Some j ->
  jobSet_ok (jobSet_of_update status data) = true ->
  let w' := open env c hdrs jobId w in
  let first := FrameUpdate (jobsWebSocket.current_status jobId j) in
  sent <$> conns (snd (updateJobStatus jobId status data w')) !! c
    = Some [first; FrameUpdate (status_message jobId status data)]
  /\ sent <$> conns (snd (updateJobStatus jobId status data (close c w'))) !! c
     = Some [first].
Proof.
  intros Hauth Hj Hok w' first.
  destruct (open_found_conn
              env c hdrs jobId userId organizationId w j Hauth Hj)
    as (Hc & Hsub).
  fold w' in Hc, Hsub.
  rewrite !updateJobStatus_eq, Hok. split.
  - rewrite publishJobUpdate_delivers. simpl.
    rewrite decide_True by (rewrite Hsub; apply elem_of_union_l;
                            by apply elem_of_singleton).
    by rewrite Hc.
  - rewrite publishJobUpdate_delivers. cbn [bus conns with_db].
    rewrite (close_with_wsData c w' _ _ Hc eq_refl). cbn [wsd_jobId wsd_callback].
    assert (c ∉ subscribers jobId
                  (bus (unsubscribeFromJob jobId c (on_conn set_closed c w'))))
      as Hgone.
    { rewrite subscribers_unsubscribeFromJob, decide_True by done.
      intros [_ Hn]%elem_of_difference. apply Hn. by apply elem_of_singleton. }
    assert (conns (on_conn set_closed c w') !! c
            = Some (set_closed (conn_subscribed c jobId userId organizationId j)))
      as Hclosed by (by rewrite on_conn_lookup, decide_True, Hc).
    rewrite decide_False by done. rewrite conns_unsubscribeFromJob. by rewrite Hclosed.
Qed.

End GatewayExtras.

Lemma append_nil_l s : "" +:+ s = s.
Proof. reflexivity. Qed.

Lemma append_cons c a b : String c a +:+ b = String c (a +:+ b).
Proof. reflexivity. Qed.

Lemma lower_space c : bool_decide (lower c = " "%char) = bool_decide (c = " "%char).
Proof. destruct c as [[] [] [] [] [] [] [] []]; reflexivity. Qed.

Lemma has_char_toLowerCase_space s :
  has_char " " (toLowerCase s) = has_char " " s.
Proof. induction s as [|c s IH]; simpl; [done|]. by rewrite lower_space, IH. Qed.

Lemma str_split_no_sep sep s :
  has_char sep s = false -> str_split sep s = [s].
Proof.
  induction s as [|c s IH]; simpl; [done|].
  intros [Hc Hs]%orb_false_iff. rewrite Hc, IH by done. done.
Qed.

Lemma str_split_app sep a b :
  has_char sep a = false ->
  str_split sep (a +:+ String sep b) = a :: str_split sep b.
Proof.
  induction a as [|c a IH]; intros Ha.
  - rewrite append_nil_l. cbn [str_split]. by rewrite bool_decide_eq_true_2.
  - simpl in Ha. apply orb_false_iff in Ha as [Hc Ha].
    rewrite append_cons. cbn [str_split]. rewrite Hc, IH by done. done.
Qed.

Lemma every_rev_app p s acc :
  every p (String.rev_app s acc) = every p s && every p acc.
Proof.
  revert acc. induction s as [|c s IH]; intros acc; simpl; [done|].
  rewrite IH. simpl. by destruct (p c), (every p s), (every p acc).
Qed.

Lemma rev_app_rev_app s a b :
  String.rev_app (String.rev_app s a) b = String.rev_app a (s +:+ b).
Proof.
  revert a b. induction s as [|c s IH]; intros a b; [done|].
  rewrite append_cons. cbn [String.rev_app]. by rewrite IH.
Qed.

Lemma append_empty_r s : s +:+ "" = s.
Proof. induction s as [|c s IH]; [done|]. by rewrite append_cons, IH. Qed.

Lemma rev_rev s : String.rev (String.rev s) = s.
Proof. unfold String.rev. rewrite rev_app_rev_app. simpl. apply append_empty_r. Qed.

Lemma trimStart_no_space s :
  every (fun c => negb (isWhiteSpace c)) s = true -> trimStart s = s.
Proof.
  destruct s as [|c s]; [done|]. simpl. intros [Hc _]%andb_true_iff.
  apply negb_true_iff in Hc. by rewrite Hc.
Qed.

(** [trim] leaves a string without white space as it is. *)
Lemma trim_no_space s :
  every (fun c => negb (isWhiteSpace c)) s = true -> trim s = s.
Proof.
  intros Hs. unfold trim. rewrite (trimStart_no_space s Hs).
  rewrite trimStart_no_space; [apply rev_rev|].
  unfold String.rev. rewrite every_rev_app, Hs. done.
Qed.

Lemma every_impl (p q : ascii -> bool) s :
  (forall c, p c = true -> q c = true) -> every p s = true -> every q s = true.
Proof.
  intros Hpq. induction s as [|c s IH]; simpl; [done|].
  intros [Hc Hs]%andb_true_iff. by rewrite (Hpq c Hc), IH.
Qed.

Lemma alphabet_no_space c :
  has_char c ALPHABET = true -> negb (isWhiteSpace c) = true.
Proof. destruct c as [[] [] [] [] [] [] [] []]; vm_compute; done. Qed.

Lemma every_has_char p s c :
  every p s = true -> p c = false -> has_char c s = false.
Proof.
  intros Hs Hc. induction s as [|a s IH]; [done|].
  simpl in *. apply andb_true_iff in Hs as [Ha Hs]. rewrite IH by done.
  rewrite orb_false_r. apply bool_decide_eq_false_2. intros ->. congruence.
Qed.

Lemma generateApiKey_unfold nano :
  generateApiKey nano = String "s" (String "k" (String "_" nano)).
Proof. reflexivity. Qed.

Lemma generateApiKey_no_space nano :
  over ALPHABET nano = true ->
  every (fun c => negb (isWhiteSpace c)) (generateApiKey nano) = true
  /\ has_char " " (generateApiKey nano) = false.
Proof.
  intros Hn. rewrite generateApiKey_unfold.
  assert (every (fun c => negb (isWhiteSpace c)) nano = true) as Hs
    by (by apply (every_impl _ _ nano alphabet_no_space)).
  split.
  - cbn [every]. by rewrite Hs.
  - cbn [has_char]. by rewrite (every_has_char _ nano " "%char Hs).
Qed.

(** What [validateApiKey] reads off a header made of a scheme that is
    "bearer" in any case, one space and a generated key. *)
Lemma bearer_token_generated scheme nano :
  toLowerCase scheme = "bearer" ->
  over ALPHABET nano = true ->
  bearer_token (Some (scheme +:+ " " +:+ generateApiKey nano))
  = Some (generateApiKey nano).
Proof.
  intros Hscheme Hn.
  destruct (generateApiKey_no_space nano Hn) as [Hns Hsp].
  assert (has_char " " scheme = false) as Hs.
  { by rewrite <- has_char_toLowerCase_space, Hscheme. }
  unfold bearer_token.
  assert (truthy (Some (scheme +:+ " " +:+ generateApiKey nano)) = true) as ->.
  { simpl. apply negb_true_iff, bool_decide_eq_false_2.
    destruct scheme; [done|]. by rewrite append_cons. }
  cbn [negb default]. unfold Datatypes.id.
  change (scheme +:+ " " +:+ generateApiKey nano)
    with (scheme +:+ String " " (generateApiKey nano)).
  rewrite str_split_app, str_split_no_sep by done.
  rewrite Hscheme. cbn [bool_decide negb].
  rewrite bool_decide_eq_true_2 by done. cbn [negb String.concat].
  rewrite trim_no_space by done.
  rewrite bool_decide_eq_false_2 by (by rewrite generateApiKey_unfold).
  assert (String.prefix "sk_" (generateApiKey nano) = true) as ->; [|done].
  rewrite generateApiKey_unfold. simpl.
  repeat (destruct (Ascii.ascii_dec _ _); [|congruence]). by destruct nano.
Qed.

(** X16: [validateApiKey] answers with a key's data only for a header
    that carries that key.  When it returns an [ApiKeyInfo], the header
    (a string of code units below 256, as a header value is) splits at
    its spaces into a scheme that is "bearer" in lower case and a rest
    whose joining, with the white space at its two ends stripped, starts
    with "sk_"; some active row of [api_keys] has the hash of that token,
    and the answer is the id, name, organization and user of that row. *)
Theorem validateApiKey_sound sha256_hex env authHeader updateUsage w info :
  fst (validateApiKey sha256_hex env authHeader updateUsage w) = Ok (Some info) ->
  exists header scheme rest k,
    authHeader = Some header
    /\ str_split " " header = scheme :: rest
    /\ toLowerCase scheme = "bearer"
    /\ String.prefix "sk_" (trim (String.concat " " rest)) = true
    /\ k ∈ apiKeys (db w)
    /\ key_keyHash k = hashApiKey sha256_hex (trim (String.concat " " rest))
    /\ key_isActive k = true
    /\ info = info_of k.
Proof.
  rewrite validateApiKey_eq. unfold bearer_token.
  destruct authHeader as [header|]; [|done].
  destruct (negb (truthy (Some header))); [done|]. cbn [default]. unfold Datatypes.id.
  destruct (str_split " " header) as [|scheme rest] eqn:Hsplit; [done|].
  case_bool_decide as Hscheme; [|done]. cbn [negb].
  destruct (bool_decide _ || negb (String.prefix "sk_" _)) eqn:Htok; [done|].
  apply orb_false_iff in Htok as [_ Hpre]. apply negb_false_iff in Hpre.
  destruct (find_key _ _) as [k|] eqn:Hk; [|done].
  destruct (key_isActive k) eqn:Hact; [|done]. cbn [negb].
  intros Hres.
  assert (info = info_of k) as ->.
  { destruct updateUsage; [|by injection Hres].
    destruct (update_apiKey_usage _ _ _) as [[[] d']|e]; [|done].
    by injection Hres. }
  exists header, scheme, rest, k. split_and!; try done.
  - unfold find_key in Hk. rewrite head_filter_find in Hk.
    apply find_some in Hk as [Hin _]. by apply list_elem_of_In.
  - unfold find_key in Hk. rewrite head_filter_find in Hk.
    apply find_some in Hk as [_ Hh]. by apply bool_decide_eq_true_1 in Hh.
Qed.

(** X17: [validateApiKey] counts a request only when it accepts the key,
    and only on that key.  With [updateUsage], a call that returns an
    [ApiKeyInfo] has added one to the request count of the rows with that
    id and set their last use to the current time; every other call, and
    one that throws, leaves the whole world as it was. *)
Theorem validateApiKey_counts_accepted_key_only sha256_hex env authHeader w :
  let r := validateApiKey sha256_hex env authHeader true w in
  match fst r with
  | Ok (Some info) =>
      snd r = with_db (with_apiKeys
                         (touched (clock env) (id info) (apiKeys (db w))) (db w)) w
  | _ => snd r = w
  end.
Proof.
  intros r. subst r. rewrite validateApiKey_eq.
  destruct (bearer_token authHeader) as [token|]; [|done].
  destruct (find_key _ _) as [k|]; [|done].
  destruct (negb (key_isActive k)); [done|].
  unfold update_apiKey_usage. by destruct (forallb _ _).
Qed.

(** X18: a generated key authenticates.  For a key "sk_" + nanoid over
    the alphabet, a header made of a scheme that is "bearer" in any
    case, one space and the key is accepted whenever the row that the
    key's hash finds is active: the call returns that row's data (and,
    without [updateUsage], changes nothing). *)
Theorem generated_key_is_accepted sha256_hex env scheme nano w k :
  toLowerCase scheme = "bearer" ->
  over ALPHABET nano = true ->
  find_key (hashApiKey sha256_hex (generateApiKey nano)) (apiKeys (db w)) = Some k ->
  key_isActive k = true ->
  validateApiKey sha256_hex env (Some (scheme +:+ " " +:+ generateApiKey nano)) false w
  = (Ok (Some (info_of k)), w).
Proof.
  intros Hscheme Hn Hk Hact.
  rewrite validateApiKey_eq, bearer_token_generated by done.
  unfold hashApiKey in Hk. by rewrite Hk, Hact.
Qed.

Lemma substring_prefix n s : String.prefix (String.substring 0 n s) s = true.
Proof.
  revert s. induction n as [|n IH]; intros s.
  - by destruct s.
  - destruct s as [|c s]; [done|]. simpl.
    destruct (Ascii.ascii_dec c c); [apply IH|congruence].
Qed.

Lemma substring_length n s :
  String.length (String.substring 0 n s) = Nat.min n (String.length s).
Proof.
  revert s. induction n as [|n IH]; intros s.
  - by destruct s.
  - destruct s as [|c s]; [done|]. simpl. by rewrite IH.
Qed.

(** X19: the prefix kept of a key is its first eight characters: it is a
    prefix of the key, eight characters long (the whole key if that is
    shorter), and of a generated key it is "sk_" and the first five
    characters of the secret part. *)
Theorem getKeyPrefix_is_prefix key nano :
  String.prefix (getKeyPrefix key) key = true
  /\ String.length (getKeyPrefix key) = Nat.min 8 (String.length key)
  /\ getKeyPrefix (generateApiKey nano) = "sk_" +:+ String.substring 0 5 nano.
Proof.
  unfold getKeyPrefix. split; [apply substring_prefix|].
  split; [apply substring_length|]. reflexivity.
Qed.

(** X20: an id tells its kind.  Two ids made by [createId] are equal only
    if they were made for the same prefix from the same [nanoid] output:
    ids of different kinds never collide, whatever [nanoid] returns. *)
Theorem createId_injective env1 prefix1 env2 prefix2 :
  createId env1 prefix1 = createId env2 prefix2 ->
  prefix1 = prefix2 /\ nanoid env1 = nanoid env2.
Proof.
  unfold createId.
  destruct prefix1, prefix2; cbn [ID_PREFIXES String.append];
    intros H; first [discriminate H | by injection H].
Qed.

(** X21: what the client makes of the server's messages.  Each message is
    answered by at most one callback; a connection error reaches onError
    with the server's text, a pong reaches nothing; the notifications of
    updateJobStatus and of [open] reach onStatus, that of completeJob
    reaches onComplete with the results, and that of failJob reaches
    onError with the error message, unless the message is empty, in
    which case the client drops the notification. *)
Theorem client_dispatches_server_messages :
  (forall message, (length (onMessage message) <= 1)%nat)
  /\ onMessage FramePong = []
  /\ (forall error, onMessage (FrameError error) = [OnError error])
  /\ (forall jobId status data,
        onMessage (FrameUpdate (status_message jobId status data)) = [OnStatus status])
  /\ (forall jobId j,
        onMessage (FrameUpdate (jobsWebSocket.current_status jobId j))
        = [OnStatus (job_status j)])
  /\ (forall jobId result,
        onMessage (FrameUpdate (completed_message jobId result))
        = [OnComplete (jsonResult result) (Some (markdownResult result))
             (Some (processingTimeMs result))])
  /\ (forall jobId errorMessage,
        onMessage (FrameUpdate (error_message jobId errorMessage))
        = if bool_decide (errorMessage = "") then [] else [OnError errorMessage]).
Proof.
  split.
  { intros [error| |[data jobId []]]; simpl; try lia.
    - destruct (data_status data); simpl; lia.
    - destruct (truthy (data_error data)); simpl; lia. }
  repeat split; try done.
  intros jobId errorMessage. simpl. by case_bool_decide.
Qed.

(** ** The further statements at the example data *)

Lemma world_watching_reachable :
  reachable sha_stub no_session ping_stub world_watching.
Proof.
  unfold world_watching, jobsWebSocket.open.
  eapply reachable_step;
    [|apply (step_call _ _ _
               (CallFailJob "job_abc" "OCR_TIMEOUT" "OCR request timed out" false))].
  eapply reachable_step; [|apply step_open_job].
  eapply reachable_step; [|apply step_open_identity].
  eapply reachable_step; [|by apply step_open_begin].
  by apply reachable_start.
Qed.

Lemma call_keeps_other_jobs_witness :
  let c := CallCompleteJob env_noon "job_abc" result_hi in
  jobs (db world_web) !! 1%nat = Some job_web
  /\ job_id job_web <> call_jobId c
  /\ jobs (db (snd (call c world_web))) !! 1%nat = Some job_web.
Proof.
  intros c. split; [reflexivity|]. split; [discriminate|].
  apply (call_keeps_other_jobs c world_web 1 job_web); [reflexivity|discriminate].
Defined.

Lemma run_keeps_usageEvents_unique_witness :
  NoDup (ue_jobId <$> usageEvents (db world_done))
  /\ NoDup (ue_id <$> usageEvents (db world_done))
  /\ NoDup (ue_jobId <$> usageEvents (db (run calls_afternoon world_done)))
  /\ NoDup (ue_id <$> usageEvents (db (run calls_afternoon world_done))).
Proof.
  assert (NoDup (ue_jobId <$> usageEvents (db world_done))) as Hj.
  { vm_compute. apply NoDup_singleton. }
  assert (NoDup (ue_id <$> usageEvents (db world_done))) as Hi.
  { vm_compute. apply NoDup_singleton. }
  split; [exact Hj|]. split; [exact Hi|].
  exact (run_keeps_usageEvents_unique calls_afternoon world_done Hj Hi).
Defined.

Lemma completeJob_without_owner_witness :
  let r := completeJob env_noon "job_web" result_hi world_web in
  getJobById "job_web" world_web = Some job_web
  /\ truthy (getJobById "job_web" world_web ≫= job_apiKeyId) = false
  /\ ledger_unchanged world_web (snd r)
  /\ fst r = Ok tt
  /\ publishLog (snd r) = publishLog world_web ++ [completed_message "job_web" result_hi].
Proof.
  intros r. split; [reflexivity|]. split; [reflexivity|].
  destruct (completeJob_without_owner env_noon "job_web" result_hi world_web)
    as (Hledger & Hok); [reflexivity|].
  split; [exact Hledger|]. apply Hok. reflexivity.
Defined.

Lemma terminal_writes_keep_other_columns_witness :
  getJobById "job_abc" world0 = Some job_abc
  /\ jobSet_ok (jobSet_of_result (clock env_noon) result_hi) = true
  /\ forall j',
       getJobById "job_abc" (snd (completeJob env_noon "job_abc" result_hi world0))
         = Some j' ->
       job_retryCount j' = 0 /\ job_startedAt j' = Some 1699999990000.
Proof.
  split; [reflexivity|]. split; [reflexivity|].
  intros j' Hj'.
  destruct (terminal_writes_keep_other_columns "job_abc" world0 job_abc)
    as (Hcomplete & _); [reflexivity|].
  destruct (Hcomplete env_noon result_hi j') as (_ & _ & Hretry & Hstart & _);
    [reflexivity|exact Hj'|].
  split; [exact Hretry|exact Hstart].
Defined.

Lemma refused_write_changes_nothing_witness :
  jobSet_ok (jobSet_of_result (clock env_noon) result_huge) = false
  /\ completeJob env_noon "job_abc" result_huge world0
     = (Thrown IntegerOutOfRange, world0).
Proof.
  split; [reflexivity|].
  destruct (refused_write_changes_nothing "job_abc" world0) as (_ & Hcomplete & _).
  apply Hcomplete. reflexivity.
Defined.

Lemma connection_sent_updates_of_its_job_only_witness :
  let m := error_message "job_abc" "OCR request timed out" in
  reachable sha_stub no_session ping_stub world_watching
  /\ conns world_watching !! 7%nat = Some conn_watching
  /\ FrameUpdate m ∈ sent conn_watching
  /\ exists d, wsData conn_watching = Some d
               /\ wsd_jobId d = msg_jobId m /\ wsd_callback d = 7%nat.
Proof.
  intros m.
  assert (conns world_watching !! 7%nat = Some conn_watching) as Hc.
  { vm_compute. reflexivity. }
  assert (FrameUpdate m ∈ sent conn_watching) as Hm.
  { apply list_elem_of_In. right. left. reflexivity. }
  split; [exact world_watching_reachable|]. split; [exact Hc|]. split; [exact Hm|].
  exact (connection_sent_updates_of_its_job_only sha_stub no_session ping_stub
           world_watching 7%nat conn_watching m world_watching_reachable Hc Hm).
Defined.

Lemma close_removes_own_subscription_only_witness :
  reachable sha_stub no_session ping_stub world_watching
  /\ subscribers "job_abc" (bus world_watching) = {[7%nat]}
  /\ subscribers "job_abc" (bus (jobsWebSocket.close 7 world_watching))
     = subscribers "job_abc" (bus world_watching) ∖ {[7%nat]}.
Proof.
  split; [exact world_watching_reachable|]. split; [by vm_compute|].
  exact (close_removes_own_subscription_only sha_stub no_session ping_stub
           world_watching 7%nat "job_abc" world_watching_reachable).
Defined.

Lemma open_rejects_unidentified_caller_witness :
  let w' := jobsWebSocket.open sha_stub no_session env_noon 7 hdrs_basic "job_abc" world0 in
  fst (validateApiKey sha_stub env_noon (authorization hdrs_basic) false world0) = Ok None
  /\ session_identity (no_session (cookie_of hdrs_basic)) = None
  /\ conns w' !! 7%nat = Some (conn_rejected "Unauthorized")
  /\ bus w' = bus world0 /\ db w' = db world0.
Proof.
  intros w'. split; [vm_compute; reflexivity|]. split; [reflexivity|].
  apply (open_rejects_unidentified_caller sha_stub no_session env_noon 7 hdrs_basic
           "job_abc" world0).
  - vm_compute. reflexivity.
  - reflexivity.
Defined.

Lemma open_prefers_api_key_witness :
  fst (validateApiKey sha_stub env_noon (authorization hdrs_a) false world0)
    = Ok (Some (info_of ak_1))
  /\ jobsWebSocket.open sha_stub no_session env_noon 7 hdrs_a "job_abc" world0
     = jobsWebSocket.open sha_stub session_stub env_noon 7 hdrs_a "job_abc" world0.
Proof.
  assert (fst (validateApiKey sha_stub env_noon (authorization hdrs_a) false world0)
          = Ok (Some (info_of ak_1))) as Hkey.
  { vm_compute. reflexivity. }
  split; [exact Hkey|].
  destruct (open_prefers_api_key sha_stub no_session env_noon 7 hdrs_a "job_abc"
              world0 (info_of ak_1) session_stub Hkey) as (_ & Hsame).
  exact Hsame.
Defined.

Lemma open_subscribes_caller_of_own_organization_witness :
  let w' := jobsWebSocket.open sha_stub no_session env_noon 7 hdrs_a "job_abc" world0 in
  findFirst (jobsWebSocket.job_in_org "job_abc" "org_a") (db world0) = Some job_abc
  /\ conns w' !! 7%nat = Some (conn_subscribed 7 "job_abc" "user_1" "org_a" job_abc)
  /\ subscribers "job_abc" (bus w') = {[7%nat]} ∪ subscribers "job_abc" (bus world0).
Proof.
  intros w'. split; [reflexivity|].
  destruct (open_subscribes_caller_of_own_organization sha_stub no_session env_noon
              7 hdrs_a "job_abc" "user_1" "org_a" world0 job_abc)
    as (_ & _ & Hconn & Hsub & _).
  - vm_compute. reflexivity.
  - reflexivity.
  - split; [exact Hconn|exact Hsub].
Defined.

Lemma open_then_update_then_close_witness :
  let w' := jobsWebSocket.open sha_stub no_session env_noon 7 hdrs_a "job_abc" world0 in
  let first := FrameUpdate (jobsWebSocket.current_status "job_abc" job_abc) in
  jobSet_ok (jobSet_of_update extracting None) = true
  /\ sent <$> conns (snd (updateJobStatus "job_abc" extracting None w')) !! 7%nat
     = Some [first; FrameUpdate (status_message "job_abc" extracting None)]
  /\ sent <$> conns (snd (updateJobStatus "job_abc" extracting None
                            (jobsWebSocket.close 7 w'))) !! 7%nat
     = Some [first].
Proof.
  intros w' first. split; [reflexivity|].
  apply (open_then_update_then_close sha_stub no_session env_noon 7 hdrs_a
           "job_abc" "user_1" "org_a" world0 job_abc extracting None).
  - vm_compute. reflexivity.
  - reflexivity.
  - reflexivity.
Defined.

Lemma validateApiKey_sound_witness :
  fst (validateApiKey sha_stub env_noon (Some header_nbsp) true world0)
    = Ok (Some (info_of ak_1))
  /\ trim (String "160" ("sk_live" +:+ String "160" "")) = "sk_live"
  /\ exists header scheme rest k,
       Some header_nbsp = Some header
       /\ str_split " " header = scheme :: rest
       /\ toLowerCase scheme = "bearer"
       /\ String.prefix "sk_" (trim (String.concat " " rest)) = true
       /\ k ∈ apiKeys (db world0)
       /\ key_keyHash k = hashApiKey sha_stub (trim (String.concat " " rest))
       /\ key_isActive k = true
       /\ info_of ak_1 = info_of k.
Proof.
  assert (fst (validateApiKey sha_stub env_noon (Some header_nbsp) true world0)
          = Ok (Some (info_of ak_1))) as Hkey.
  { vm_compute. reflexivity. }
  split; [exact Hkey|]. split; [vm_compute; reflexivity|].
  exact (validateApiKey_sound sha_stub env_noon (Some header_nbsp) true world0
           (info_of ak_1) Hkey).
Defined.

Lemma generated_key_is_accepted_witness :
  toLowerCase "BEARER" = "bearer"
  /\ over ALPHABET "live" = true
  /\ find_key (hashApiKey sha_stub (generateApiKey "live")) (apiKeys (db world0))
     = Some ak_1
  /\ validateApiKey sha_stub env_noon
       (Some ("BEARER" +:+ " " +:+ generateApiKey "live")) false world0
     = (Ok (Some (info_of ak_1)), world0).
Proof.
  split; [reflexivity|]. split; [reflexivity|]. split; [reflexivity|].
  apply (generated_key_is_accepted sha_stub env_noon "BEARER" "live" world0 ak_1);
    reflexivity.
Defined.

Lemma createId_injective_witness :
  createId env_noon id_job = createId env_midnight id_job
  /\ id_job = id_job /\ nanoid env_noon = nanoid env_midnight.
Proof.
  split; [reflexivity|].
  apply (createId_injective env_noon id_job env_midnight id_job). reflexivity.
Defined.
